(** * no-raii-benchmark: a region allocator against owning pointers

    A shallow embedding of [main.cpp].  The program builds a full tree of
    [TREE_DEPTH] levels with [N_CHILDREN] children per node twice, once with
    owning pointers ([with_raii]) and once inside a region allocator
    ([without_raii]), walks it to compute a checksum, and compares the two
    runs.

    Conventions of the embedding.
    - [int] is a 32-bit two's-complement integer carried in [Z]; every
      arithmetic step on it is followed by [wrap_int].  (The C++ standard
      leaves signed overflow undefined; the usual targets wrap.)
    - [size_t] and [uintptr_t] are 64-bit, carried in [Z] modulo [2^64];
      object sizes follow the LP64 data model.
    - An address is a [Z]; the null pointer is [0].  Where the deque places
      its pages is a parameter, [page_addr]; the theorems say what they need
      of it ([pages_ok]).
    - The memory of the region is seen through two finite maps, the [Node]
      objects by address and the [Node*] slots by address.  That no two
      objects are placed on the same bytes is not built in: it follows from
      what is proved about [allocate_block].
    - [assert] is active ([NDEBUG] is not defined).
    - A computation that can stop the process, or that runs out of the fuel
      that bounds its recursion, returns an [Outcome]. *)

From Stdlib Require Import ZArith Lia List Permutation Ascii String.
From stdpp Require Import base gmap list strings.

Set Warnings "-register-all".

Local Open Scope Z_scope.

(** ** Scalars *)

Definition wrap_int (z : Z) : Z := (z + 2 ^ 31) mod 2 ^ 32 - 2 ^ 31.
Definition to_size_t (z : Z) : Z := z mod 2 ^ 64.

Definition int_range (z : Z) : Prop := - 2 ^ 31 <= z < 2 ^ 31.

(** An alignment is a power of two that a [size_t] can hold. *)
Definition is_alignment (a : Z) : Prop := exists n, 0 <= n < 64 /\ a = 2 ^ n.

(** The first multiple of [a] at or after [p]. *)
Definition align_up (p a : Z) : Z := p + (- p) mod a.

Definition sum_Z (l : list Z) : Z := fold_right Z.add 0 l.

(** [c, c + 1, ..., c + n - 1] *)
Definition range_Z (c : Z) (n : nat) : list Z := map (fun i => c + Z.of_nat i) (seq 0 n).

(** [1 + k + k^2 + ... + k^d] *)
Fixpoint sum_of_powers (k : Z) (d : nat) : Z :=
  match d with
  | O => 1
  | S d' => sum_of_powers k d' + k ^ Z.of_nat d
  end.

(** The nodes below a node that has [m] levels under it, [k] children each. *)
Fixpoint nodes_below (k : Z) (m : nat) : Z :=
  match m with
  | O => 0
  | S m' => k + k * nodes_below k m'
  end.

(** The levels [build_subtree] adds for [levels_left]: at least one. *)
Definition levels (levels_left : Z) : nat := Z.to_nat (Z.max levels_left 1).

(** [const int N_CHILDREN] and [const int TREE_DEPTH] are parameters of the
    definitions below; the checksum modulus is the literal of [traverse]. *)
Definition CHECKSUM_MODULUS : Z := 43112609.

(** ** Outcomes *)

Inductive Outcome (A : Type) : Type :=
| Ok (a : A)
| Terminated (stderr : string)      (* fprintf(stderr, ...); std::terminate() *)
| AssertionFailed (expr : string)   (* assert(expr) does not hold *)
| Uncaught (exception : string)     (* an exception nobody catches *)
| InvalidAccess                     (* an object that was never constructed is used *)
| OutOfFuel.                        (* the bound on the recursion depth is reached *)
Arguments Ok {A} a.
Arguments Terminated {A} stderr.
Arguments AssertionFailed {A} expr.
Arguments Uncaught {A} exception.
Arguments InvalidAccess {A}.
Arguments OutOfFuel {A}.

Global Instance Outcome_ret : MRet Outcome := @Ok.
Global Instance Outcome_bind : MBind Outcome := fun A B f m =>
  match m with
  | Ok a => f a
  | Terminated s => Terminated s
  | AssertionFailed e => AssertionFailed e
  | Uncaught e => Uncaught e
  | InvalidAccess => InvalidAccess
  | OutOfFuel => OutOfFuel
  end.

Definition from_option {A : Type} (o : option A) : Outcome A :=
  match o with Some a => Ok a | None => InvalidAccess end.

(** [for (int i = 0; i < n; ++i) body] on a state [S]. *)
Fixpoint for_loop {S : Type} (n : nat) (body : S -> Outcome S) (s : S) : Outcome S :=
  match n with
  | O => Ok s
  | Datatypes.S n' => s' ← body s; for_loop n' body s'
  end.

(** [for (auto& x : xs) body(x)] where the body only changes the state. *)
Fixpoint for_each {A S : Type} (xs : list A) (body : A -> S -> Outcome S) (s : S)
  : Outcome S :=
  match xs with
  | [] => Ok s
  | x :: xs' => s' ← body x s; for_each xs' body s'
  end.

(** [for (auto& x : xs) body(x)] where the body changes the element it is
    handed (an owned object) and the state. *)
Fixpoint for_each_mut {A S : Type} (xs : list A) (body : A -> S -> Outcome (A * S)) (s : S)
  : Outcome (list A * S) :=
  match xs with
  | [] => Ok ([], s)
  | x :: xs' =>
      '(x', s1) ← body x s;
      '(xs'', s2) ← for_each_mut xs' body s1;
      Ok (x' :: xs'', s2)
  end.

(** ** Global statistics

    Of [AllocationStat] only [n_nodes_created] enters the results that are
    compared; the byte and call counters of the logging [operator new] are
    left out. *)

Record AllocationStat := { n_nodes_created : Z }.

(** [g_stat.n_nodes_created++] *)
Definition next_node_id (g : AllocationStat) : Z * AllocationStat :=
  (n_nodes_created g, {| n_nodes_created := wrap_int (n_nodes_created g + 1) |}).

(** The counter has advanced by [n] (modulo the width of [int]). *)
Definition advanced (g g' : AllocationStat) (n : Z) : Prop :=
  forall z, n_nodes_created g = wrap_int z -> n_nodes_created g' = wrap_int (z + n).

(** [g_stat = AllocationStat{}] *)
Definition fresh_stat : AllocationStat := {| n_nodes_created := 0 |}.

(** ** namespace with_raii *)

Module with_raii.

Definition Allocator : Type := unit.

(** [struct Node { vector<unique_ptr<Node>> children; const int node_id; }]:
    every node owns its children, so the tree is a value. *)
Inductive Node : Type :=
  mkNode { children : list Node; node_id : Z }.

(** [Node(Allocator&, int max_n_children)]: the members are initialised
    ([node_id] takes the counter), then [children.reserve] runs; a negative
    argument converts to a [size_type] above [max_size()] and [reserve]
    throws. *)
Definition new_Node (_ : Allocator) (max_n_children : Z) (g : AllocationStat)
  : Outcome (Node * AllocationStat) :=
  let '(id, g') := next_node_id g in
  if max_n_children <? 0 then Uncaught "std::length_error"
  else Ok ({| children := []; node_id := id |}, g').

Definition add_child (a : Allocator) (max_n_children : Z)
    (st : Node * AllocationStat) : Outcome (Node * AllocationStat) :=
  let '(node, g) := st in
  '(c, g') ← new_Node a max_n_children g;
  Ok ({| children := children node ++ [c]; node_id := node_id node |}, g').

Section Tree.
Variables N_CHILDREN TREE_DEPTH : Z.

Fixpoint build_subtree (fuel : nat) (a : Allocator) (node : Node) (levels_left : Z)
    (g : AllocationStat) : Outcome (Node * AllocationStat) :=
  match fuel with
  | O => OutOfFuel
  | S fuel' =>
      '(node, g) ← for_loop (Z.to_nat N_CHILDREN) (add_child a N_CHILDREN) (node, g);
      let levels_left := wrap_int (levels_left - 1) in
      if levels_left <=? 0 then Ok (node, g)
      else
        '(cs, g) ← for_each_mut (children node)
                      (fun c g => build_subtree fuel' a c levels_left g) g;
        Ok ({| children := cs; node_id := node_id node |}, g)
  end.

Definition build_tree (fuel : nat) (a : Allocator) (g : AllocationStat)
  : Outcome (Node * AllocationStat) :=
  '(root, g) ← new_Node a N_CHILDREN g;
  build_subtree fuel a root TREE_DEPTH g.
End Tree.

(** [checksum = (checksum + traverse(child)) % 43112609], [%] truncating. *)
Fixpoint traverse (node : Node) : Z :=
  fold_left (fun checksum c => Z.rem (wrap_int (checksum + traverse c)) CHECKSUM_MODULUS)
            (children node) (node_id node).

(** [test<with_raii::Allocator, with_raii::Node>]: the checksum and the
    statistics of the report. *)
Definition test (N_CHILDREN TREE_DEPTH : Z) (fuel : nat) : Outcome (Z * AllocationStat) :=
  '(r, g) ← build_tree N_CHILDREN TREE_DEPTH fuel tt fresh_stat;
  Ok (traverse r, g).

(** *** What is said about a tree *)

(** The identifiers in the order a depth-first walk meets them, a node
    before its children. *)
Fixpoint node_ids (node : Node) : list Z :=
  node_id node :: flat_map node_ids (children node).

Definition node_count (node : Node) : Z := Z.of_nat (length (node_ids node)).

(** The nodes below a node. *)
Definition descendants (node : Node) : nat :=
  length (flat_map node_ids (children node)).

(** The nodes below the nodes of a list. *)
Definition descendants_of (cs : list Node) : nat :=
  length (flat_map (fun c => flat_map node_ids (children c)) cs).

(** The longest chain of children. *)
Fixpoint height (node : Node) : nat :=
  S (fold_right (fun c h => Nat.max (height c) h) O (children node)).

(** A tree of [m] levels below its root in which every node above the last
    level has exactly [k] children. *)
Fixpoint full_tree (k m : nat) (node : Node) : Prop :=
  match m with
  | O => children node = []
  | S m' => length (children node) = k /\ Forall (full_tree k m') (children node)
  end.

(** The children of every node carry consecutive identifiers, in the order
    of [children]. *)
Inductive siblings_consecutive : Node -> Prop :=
| siblings_node cs id c :
    map node_id cs = range_Z c (length cs) ->
    Forall siblings_consecutive cs ->
    siblings_consecutive (mkNode cs id).

(** The checksum as the specification words it: the node's identifier plus
    the checksums of its children, reduced modulo 43112609. *)
Fixpoint spec_checksum (node : Node) : Z :=
  (node_id node + sum_Z (map spec_checksum (children node))) mod CHECKSUM_MODULUS.

(** The tree of the scenario [N_CHILDREN = 2], [TREE_DEPTH = 2]. *)
Definition scenario_tree : Node :=
  mkNode [ mkNode [ mkNode [] 3; mkNode [] 4 ] 1;
           mkNode [ mkNode [] 5; mkNode [] 6 ] 2 ] 0.

(** [traverse] with a log of the nodes whose [node_id] it reads. *)
Fixpoint traverse_visiting (node : Node) : Z * list Z :=
  fold_left (fun '(checksum, visited) c =>
               let '(t, seen) := traverse_visiting c in
               (Z.rem (wrap_int (checksum + t)) CHECKSUM_MODULUS, visited ++ seen))
            (children node) (node_id node, [node_id node]).

End with_raii.

(** ** namespace without_raii *)

Module without_raii.

Definition MAX_SMALL_BLOCK_SIZE : Z := 4096.
Definition PAGE_SIZE : Z := 65536.

(** The text [allocate_block] prints before [std::terminate()]. *)
Definition too_large_diagnostic : string :=
  String.append "Allocating more then 4096 is not implemented."
                (String "010"%char EmptyString).

(** [std::align(alignment, size, ptr, space)] as libstdc++ and libc++
    compute it, on 64-bit unsigned words: the result is the new [ptr] and
    [space], or [None] for [nullptr] (with [ptr] and [space] untouched). *)
Definition std_align (alignment size ptr space : Z) : option (Z * Z) :=
  if space <? size then None
  else
    let aligned := Z.land (to_size_t (ptr - 1 + alignment)) (to_size_t (- alignment)) in
    let diff := to_size_t (aligned - ptr) in
    if space - size <? diff then None
    else Some (aligned, space - diff).

(** [class Allocator]: a page of the deque is known by its address. *)
Record Allocator := {
  pages : list Z;
  active_page_first_free_byte : Z;
  active_page_bytes_left : Z
}.

Definition new_Allocator : Allocator :=
  {| pages := []; active_page_first_free_byte := 0; active_page_bytes_left := 0 |}.

(** Object layout (LP64): a [Node*] has 8 bytes; [Vector<Node*>] has a
    pointer and two [int]s; [Node] adds an [int] and padding. *)
Definition sizeof_ptr : Z := 8.
Definition alignof_ptr : Z := 8.
Definition sizeof_Node : Z := 24.
Definition alignof_Node : Z := 8.

(** [aligned_item_size<T>::value] *)
Definition aligned_item_size (sizeof_T alignof_T : Z) : Z :=
  ((sizeof_T + alignof_T - 1) / alignof_T) * alignof_T.

(** [class Vector<Node*>] *)
Record Vector := { items : Z; size : Z; max_size : Z }.

(** [void push_back(const T& x)] on the memory that holds the slots. *)
Definition push_back (v : Vector) (x : Z) (slots : gmap Z Z) : Outcome (Vector * gmap Z Z) :=
  if size v <? max_size v then
    Ok ({| items := items v; size := wrap_int (size v + 1); max_size := max_size v |},
        <[items v + sizeof_ptr * size v := x]> slots)
  else AssertionFailed "size < max_size".

Definition begin_ (v : Vector) : Z := items v.
Definition end_ (v : Vector) : Z := items v + sizeof_ptr * size v.

(** The addresses a range-for from [begin()] to [end()] steps through. *)
Definition slot_addrs (v : Vector) : list Z :=
  map (fun i => begin_ v + sizeof_ptr * Z.of_nat i)
      (seq 0 (Z.to_nat ((end_ v - begin_ v) / sizeof_ptr))).

(** Reading the elements from [begin()] to [end()]. *)
Definition iterate (v : Vector) (slots : gmap Z Z) : Outcome (list Z) :=
  for_each (slot_addrs v)
           (fun q acc => x ← from_option (slots !! q); Ok (acc ++ [x])) [].

(** [struct Node { Vector<Node*> children; const int node_id; }] *)
Record Node := { children : Vector; node_id : Z }.

(** A [Node&]: the root lives in the frame of [build_tree] and [test], every
    other node in the region. *)
Inductive NodeRef := stack_root | in_region (p : Z).

Global Instance NodeRef_eq_dec : EqDecision NodeRef.
Proof. solve_decision. Defined.
Global Instance NodeRef_countable : Countable NodeRef :=
  inj_countable' (fun r => match r with stack_root => None | in_region p => Some p end)
                 (fun o => match o with None => stack_root | Some p => in_region p end)
                 (fun r => match r with stack_root => eq_refl | in_region _ => eq_refl end).

(** What the program can reach: the statistics, the allocator, the [Node]
    objects by reference and the [Node*] slots by address. *)
Record World := {
  g_stat : AllocationStat;
  allocator : Allocator;
  node_at : gmap NodeRef Node;
  slot_at : gmap Z Z
}.

Definition set_allocator (a : Allocator) (w : World) : World :=
  {| g_stat := g_stat w; allocator := a; node_at := node_at w; slot_at := slot_at w |}.

(** [push_back] for each element of [xs] in turn. *)
Definition push_back_all (v : Vector) (xs : list Z) (slots : gmap Z Z)
  : Outcome (Vector * gmap Z Z) :=
  for_each xs (fun x '(v, slots) => push_back v x slots) (v, slots).

(** A layout of pages used in the examples: 64 KiB apart, each at a multiple
    of 1024 that is not a multiple of 65536. *)
Definition example_pages (i : nat) : Z := 66560 + 65536 * Z.of_nat i.

(** The world [test] starts from. *)
Definition new_World : World :=
  {| g_stat := fresh_stat; allocator := new_Allocator; node_at := ∅; slot_at := ∅ |}.

Section Region.
(** [page_addr i] is where the deque places the page it creates as its
    [i]-th. *)
Variable page_addr : nat -> Z.

Fixpoint allocate_block (fuel : nat) (a : Allocator) (size alignment : Z)
  : Outcome (Z * Allocator) :=
  match fuel with
  | O => OutOfFuel
  | S fuel' =>
      if size <=? MAX_SMALL_BLOCK_SIZE then
        let a :=
          if active_page_first_free_byte a =? 0 then
            let page := page_addr (length (pages a)) in
            {| pages := pages a ++ [page];
               active_page_first_free_byte := page;
               active_page_bytes_left := PAGE_SIZE |}
          else a in
        match std_align alignment size
                        (active_page_first_free_byte a) (active_page_bytes_left a) with
        | Some (ptr, space) =>
            Ok (ptr, {| pages := pages a;
                        active_page_first_free_byte := ptr + size;
                        active_page_bytes_left := to_size_t (space - size) |})
        | None =>
            allocate_block fuel'
              {| pages := pages a;
                 active_page_first_free_byte := 0;
                 active_page_bytes_left := 0 |}
              size alignment
        end
      else Terminated too_large_diagnostic
  end.

(** [Vector(Allocator& a, int max_size)] *)
Definition new_Vector (fuel : nat) (a : Allocator) (max_size : Z)
  : Outcome (Vector * Allocator) :=
  '(p, a') ← allocate_block fuel a
               (to_size_t (wrap_int (max_size * aligned_item_size sizeof_ptr alignof_ptr)))
               alignof_ptr;
  Ok ({| items := p; size := 0; max_size := max_size |}, a').

(** [Node(Allocator& a, int max_n_children)]: [children] first, then
    [node_id]. *)
Definition new_Node (fuel : nat) (max_n_children : Z) (w : World) : Outcome (Node * World) :=
  '(v, a') ← new_Vector fuel (allocator w) max_n_children;
  let '(id, g') := next_node_id (g_stat w) in
  Ok ({| children := v; node_id := id |},
      {| g_stat := g'; allocator := a'; node_at := node_at w; slot_at := slot_at w |}).

(** [a.new_object<Node>(a, max_n_children)] *)
Definition new_object_Node (fuel : nat) (max_n_children : Z) (w : World)
  : Outcome (Z * World) :=
  '(p, a') ← allocate_block fuel (allocator w) sizeof_Node alignof_Node;
  '(n, w') ← new_Node fuel max_n_children (set_allocator a' w);
  Ok (p, {| g_stat := g_stat w'; allocator := allocator w';
            node_at := <[in_region p := n]> (node_at w'); slot_at := slot_at w' |}).

(** [node.add_child(a, max_n_children)] for the node that [r] refers to. *)
Definition add_child (fuel : nat) (r : NodeRef) (max_n_children : Z) (w : World)
  : Outcome World :=
  '(new_node, w) ← new_object_Node fuel max_n_children w;
  n ← from_option (node_at w !! r);
  '(v, slots) ← push_back (children n) new_node (slot_at w);
  Ok {| g_stat := g_stat w; allocator := allocator w;
        node_at := <[r := {| children := v; node_id := node_id n |}]> (node_at w);
        slot_at := slots |}.

Section Tree.
Variables N_CHILDREN TREE_DEPTH : Z.

Fixpoint build_subtree (fuel : nat) (r : NodeRef) (levels_left : Z) (w : World)
  : Outcome World :=
  match fuel with
  | O => OutOfFuel
  | S fuel' =>
      w ← for_loop (Z.to_nat N_CHILDREN) (add_child fuel r N_CHILDREN) w;
      let levels_left := wrap_int (levels_left - 1) in
      if levels_left <=? 0 then Ok w
      else
        n ← from_option (node_at w !! r);
        for_each (slot_addrs (children n))
                 (fun q w =>
                    c ← from_option (slot_at w !! q);
                    build_subtree fuel' (in_region c) levels_left w)
                 w
  end.

(** The root is the object [stack_root] refers to, also after
    [return root]. *)
Definition build_tree (fuel : nat) (w : World) : Outcome World :=
  '(root, w) ← new_Node fuel N_CHILDREN w;
  build_subtree fuel stack_root TREE_DEPTH
    {| g_stat := g_stat w; allocator := allocator w;
       node_at := <[stack_root := root]> (node_at w); slot_at := slot_at w |}.
End Tree.

Fixpoint traverse (fuel : nat) (w : World) (r : NodeRef) : Outcome Z :=
  match fuel with
  | O => OutOfFuel
  | S fuel' =>
      node ← from_option (node_at w !! r);
      for_each (slot_addrs (children node))
               (fun q checksum =>
                  c ← from_option (slot_at w !! q);
                  t ← traverse fuel' w (in_region c);
                  Ok (Z.rem (wrap_int (checksum + t)) CHECKSUM_MODULUS))
               (node_id node)
  end.

(** [test<without_raii::Allocator, without_raii::Node>] *)
Definition test (N_CHILDREN TREE_DEPTH : Z) (fuel : nat) : Outcome (Z * AllocationStat) :=
  w ← build_tree N_CHILDREN TREE_DEPTH fuel new_World;
  checksum ← traverse fuel w stack_root;
  Ok (checksum, g_stat w).
End Region.

(** *** What is said about a region *)

(** A block that [allocate_block] returned, with the request it served. *)
Record Block := { block_addr : Z; block_size : Z; block_alignment : Z }.

Definition in_block (b : Block) (q : Z) : Prop :=
  block_addr b <= q < block_addr b + block_size b.

Definition overlap (b1 b2 : Block) : Prop :=
  exists q, in_block b1 q /\ in_block b2 q.

Definition within_page (page : Z) (b : Block) : Prop :=
  page <= block_addr b /\ block_addr b + block_size b <= page + PAGE_SIZE.

Section RegionInvariants.
Variable page_addr : nat -> Z.

(** The allocator after the test for a null cursor (a page is created
    when there is none), and after a page is given up. *)
Definition activated (a : Allocator) : Allocator :=
  if active_page_first_free_byte a =? 0 then
    let page := page_addr (length (pages a)) in
    {| pages := pages a ++ [page]; active_page_first_free_byte := page;
       active_page_bytes_left := PAGE_SIZE |}
  else a.

Definition retired (a : Allocator) : Allocator :=
  {| pages := pages a; active_page_first_free_byte := 0; active_page_bytes_left := 0 |}.

(** The memory of page [i] is real: not at null, inside the address
    space, and apart from the pages created before it. *)
Definition page_ok (i : nat) : Prop :=
  0 < page_addr i /\ page_addr i + PAGE_SIZE < 2 ^ 64 /\
  forall j, (j < i)%nat ->
    page_addr j + PAGE_SIZE <= page_addr i \/ page_addr i + PAGE_SIZE <= page_addr j.

Definition pages_ok (n : nat) : Prop := forall i, (i < n)%nat -> page_ok i.

(** The invariant of the two cursor fields. *)
Definition Allocator_shape (a : Allocator) : Prop :=
  pages a = map page_addr (seq 0 (length (pages a))) /\
  (active_page_first_free_byte a = 0 \/
   exists n, length (pages a) = S n /\
             page_addr n <= active_page_first_free_byte a /\
             0 <= active_page_bytes_left a /\
             active_page_first_free_byte a + active_page_bytes_left a
             = page_addr n + PAGE_SIZE).

(** The bytes the allocator will not hand out again: the pages before the
    active one, and the active page up to the cursor. *)
Definition used (a : Allocator) (q : Z) : Prop :=
  exists i, (i < length (pages a))%nat /\
            page_addr i <= q < page_addr i + PAGE_SIZE /\
            (S i = length (pages a) -> active_page_first_free_byte a <> 0 ->
             q < active_page_first_free_byte a).

(** The allocator went from [a] to [a'] creating at most [n] pages and
    keeping what it had handed out. *)
Definition grown (a a' : Allocator) (n : nat) : Prop :=
  Allocator_shape a' /\
  (length (pages a) <= length (pages a') <= length (pages a) + n)%nat /\
  forall q, used a q -> used a' q.

(** A node reference points into bytes the allocator has handed out; the
    root is outside the region. *)
Definition ref_used (a : Allocator) (r : NodeRef) : Prop :=
  match r with
  | stack_root => True
  | in_region p => used a p
  end.

(** Handed out after [a0] and up to [a]. *)
Definition fresh_addr (a0 a : Allocator) (q : Z) : Prop := used a q /\ ~ used a0 q.
Definition fresh_ref (a0 a : Allocator) (r : NodeRef) : Prop :=
  ref_used a r /\ ~ ref_used a0 r.

Definition slot_addr (v : Vector) (i : nat) : Z := items v + sizeof_ptr * Z.of_nat i.

Definition in_slots (v : Vector) (q : Z) : Prop :=
  items v <= q < items v + sizeof_ptr * max_size v.

(** [repr P Q w r t]: in the world [w] the node at [r] and what its
    [children] slots lead to form the tree [t]; the nodes involved
    satisfy [P] and the slots [Q]. *)
Inductive repr (P : NodeRef -> Prop) (Q : Z -> Prop) (w : World)
  : NodeRef -> with_raii.Node -> Prop :=
| repr_node r n ps cs id :
    P r ->
    node_at w !! r = Some n ->
    node_id n = id ->
    size (children n) = Z.of_nat (length ps) ->
    length ps = length cs ->
    (forall i p, ps !! i = Some p ->
       Q (slot_addr (children n) i) /\ slot_at w !! slot_addr (children n) i = Some p) ->
    (forall i p c, ps !! i = Some p -> cs !! i = Some c -> repr P Q w (in_region p) c) ->
    repr P Q w r (with_raii.mkNode cs id).

(** A child that [add_child] has just made: where it is, where its
    slots are, and its identifier. *)
Record Kid := { kid_ptr : Z; kid_slots : Z; kid_id : Z }.

Definition kid_ready (k : Z) (w : World) (a0 a : Allocator) (kid : Kid) : Prop :=
  node_at w !! in_region (kid_ptr kid)
    = Some {| children := {| items := kid_slots kid; size := 0; max_size := k |};
              node_id := kid_id kid |} /\
  fresh_addr a0 a (kid_ptr kid) /\
  forall q, kid_slots kid <= q < kid_slots kid + 8 * k -> fresh_addr a0 a q.

Definition kid_apart (k : Z) (kid1 kid2 : Kid) : Prop :=
  kid_ptr kid1 <> kid_ptr kid2 /\
  forall q, ~ (kid_slots kid1 <= q < kid_slots kid1 + 8 * k /\
               kid_slots kid2 <= q < kid_slots kid2 + 8 * k).

Definition leaf_of (kid : Kid) : with_raii.Node :=
  with_raii.mkNode [] (kid_id kid).

(** [build_subtree] in the region does what [build_subtree] on owned
    nodes does, when run on a node without children whose slots were
    handed out before. *)
Definition subtree_simulated (k : Z) (fuel : nat) : Prop :=
  forall r l w b id t g',
    Allocator_shape (allocator w) ->
    node_at w !! r = Some {| children := {| items := b; size := 0; max_size := k |};
                             node_id := id |} ->
    ref_used (allocator w) r ->
    (forall q, b <= q < b + 8 * k -> used (allocator w) q) ->
    with_raii.build_subtree k fuel tt (with_raii.mkNode [] id) l (g_stat w) = Ok (t, g') ->
    pages_ok (2 * with_raii.descendants t + length (pages (allocator w))) ->
    exists w',
      build_subtree page_addr k (S fuel) r l w = Ok w' /\
      g_stat w' = g' /\
      grown (allocator w) (allocator w') (2 * with_raii.descendants t) /\
      repr (fun r' => r' = r \/ fresh_ref (allocator w) (allocator w') r')
           (fun q => b <= q < b + 8 * k \/ fresh_addr (allocator w) (allocator w') q)
           w' r t /\
      (forall r', ref_used (allocator w) r' -> r' <> r ->
         node_at w' !! r' = node_at w !! r') /\
      (forall q, used (allocator w) q -> ~ (b <= q < b + 8 * k) ->
         slot_at w' !! q = slot_at w !! q).

(** [served a bs]: the allocator [a] results from a fresh one by calls of
    [allocate_block] that returned the blocks [bs], the latest first. *)
Inductive served : Allocator -> list Block -> Prop :=
| served_fresh : served new_Allocator []
| served_call a bs fuel size alignment p a' :
    served a bs ->
    0 <= size <= MAX_SMALL_BLOCK_SIZE ->
    is_alignment alignment ->
    allocate_block page_addr fuel a size alignment = Ok (p, a') ->
    served a' ({| block_addr := p; block_size := size; block_alignment := alignment |} :: bs).
End RegionInvariants.

End without_raii.

(** ** main *)

(** The text [main] prints before [std::terminate()] when the two reports
    differ. *)
Definition internal_error_diagnostic : string :=
  String.append "Internal error, different checksum or number of nodes created."
                (String "010"%char EmptyString).

(** [main] up to the line that prints the node count: the region run, the
    RAII run, the comparison of the two reports, and the three numbers of
    ["Tree node count: %d (%d levels, %d children/node)"].  The time
    measurements and the table made of them are left out. *)
Definition main (page_addr : nat -> Z) (N_CHILDREN TREE_DEPTH : Z) (fuel : nat)
  : Outcome (Z * Z * Z) :=
  '(region_checksum, region_allocations) ←
     without_raii.test page_addr N_CHILDREN TREE_DEPTH fuel;
  '(raii_checksum, raii_allocations) ← with_raii.test N_CHILDREN TREE_DEPTH fuel;
  if negb (n_nodes_created region_allocations =? n_nodes_created raii_allocations)
     || negb (region_checksum =? raii_checksum)
  then Terminated internal_error_diagnostic
  else Ok (n_nodes_created region_allocations, TREE_DEPTH, N_CHILDREN).

(** * Properties *)

(** ** Arithmetic of the machine integers *)

Lemma wrap_int_small z : int_range z -> wrap_int z = z.
Proof.
  unfold int_range, wrap_int. intros H.
  rewrite Z.mod_small; lia.
Qed.

Lemma wrap_int_succ z : wrap_int (wrap_int z + 1) = wrap_int (z + 1).
Proof.
  unfold wrap_int.
  replace ((z + 2 ^ 31) mod 2 ^ 32 - 2 ^ 31 + 1 + 2 ^ 31)
    with ((z + 2 ^ 31) mod 2 ^ 32 + 1) by lia.
  replace (z + 1 + 2 ^ 31) with (z + 2 ^ 31 + 1) by lia.
  now rewrite Zplus_mod_idemp_l.
Qed.

Lemma align_up_spec p a :
  0 < a -> p <= align_up p a < p + a /\ align_up p a mod a = 0.
Proof.
  intros Ha. unfold align_up.
  pose proof (Z.mod_pos_bound (- p) a Ha). split; [lia|].
  rewrite Zplus_mod_idemp_r. replace (p + - p) with 0 by lia. apply Zmod_0_l.
Qed.

Lemma multiple_close a x y :
  0 < a -> x mod a = 0 -> y mod a = 0 -> - a < x - y < a -> x = y.
Proof.
  intros Ha Hx Hy Hxy.
  apply Z_div_exact_full_2 in Hx; [|lia]. apply Z_div_exact_full_2 in Hy; [|lia].
  assert (x / a = y / a) by nia. congruence.
Qed.

Lemma to_size_t_neg_pow2 n : 0 <= n < 64 -> to_size_t (- 2 ^ n) = Z.shiftl (Z.ones (64 - n)) n.
Proof.
  intros Hn. unfold to_size_t.
  rewrite Z.shiftl_mul_pow2, Z.ones_equiv by lia.
  assert (H64 : 2 ^ 64 = 2 ^ (64 - n) * 2 ^ n).
  { rewrite <- Z.pow_add_r by lia. f_equal. lia. }
  assert (0 < 2 ^ n) by (apply Z.pow_pos_nonneg; lia).
  assert (2 ^ n <= 2 ^ 64) by (apply Z.pow_le_mono_r; lia).
  symmetry. apply Z.mod_unique_pos with (q := -1); lia.
Qed.

Lemma land_clear_low x n :
  0 <= x < 2 ^ 64 -> 0 <= n < 64 ->
  Z.land x (to_size_t (- 2 ^ n)) = x - x mod 2 ^ n.
Proof.
  intros Hx Hn. rewrite to_size_t_neg_pow2 by lia.
  assert (Hr : x - x mod 2 ^ n = Z.shiftl (Z.shiftr x n) n).
  { rewrite Z.shiftl_mul_pow2, Z.shiftr_div_pow2 by lia.
    pose proof (Z.div_mod x (2 ^ n)).
    assert (0 < 2 ^ n) by (apply Z.pow_pos_nonneg; lia). lia. }
  rewrite Hr. apply Z.bits_inj'. intros i Hi.
  rewrite Z.land_spec.
  destruct (Z.lt_ge_cases i n) as [Hlt | Hge].
  - rewrite !Z.shiftl_spec_low by lia. apply andb_false_r.
  - rewrite !Z.shiftl_spec by lia. rewrite Z.shiftr_spec by lia.
    replace (i - n + n) with i by lia.
    destruct (Z.lt_ge_cases i 64) as [Hlt64 | Hge64].
    + rewrite Z.ones_spec_low by lia. apply andb_true_r.
    + rewrite Z.ones_spec_high by lia. rewrite andb_false_r.
      symmetry. destruct (Z.eq_dec x 0) as [-> | Hx0]; [apply Z.bits_0|].
      apply Z.bits_above_log2; [lia|].
      apply Z.lt_le_trans with 64; [|lia].
      apply Z.log2_lt_pow2; lia.
Qed.

(** [std::align] on a buffer inside the address space, for an alignment:
    it succeeds exactly when the block fits after the padding, and then
    returns the aligned address. *)
Lemma std_align_spec al size ptr space :
  is_alignment al -> 0 <= size -> 0 <= ptr -> 0 <= space -> ptr + space < 2 ^ 64 ->
  without_raii.std_align al size ptr space =
    if (size <=? space) && (align_up ptr al - ptr <=? space - size)
    then Some (align_up ptr al, space - (align_up ptr al - ptr))
    else None.
Proof.
  intros (n & Hn & ->) Hsize Hptr Hspace Hfit.
  assert (Hpos : 0 < 2 ^ n) by (apply Z.pow_pos_nonneg; lia).
  assert (Hlt : 2 ^ n < 2 ^ 64) by (apply Z.pow_lt_mono_r; lia).
  destruct (align_up_spec ptr (2 ^ n) Hpos) as [Hup Hmul].
  unfold without_raii.std_align.
  destruct (Z.ltb_spec space size) as [Hs | Hs].
  { destruct (Z.leb_spec size space); [lia | reflexivity]. }
  destruct (Z.leb_spec size space) as [_ | ?]; [simpl | lia].
  set (x := to_size_t (ptr - 1 + 2 ^ n)).
  assert (Hx : 0 <= x < 2 ^ 64) by (apply Z.mod_pos_bound; lia).
  rewrite land_clear_low by lia.
  assert (Hxm : (x - x mod 2 ^ n) mod 2 ^ n = 0).
  { rewrite Zminus_mod_idemp_r, Z.sub_diag. apply Zmod_0_l. }
  pose proof (Z.mod_pos_bound x (2 ^ n) Hpos) as Hxr.
  destruct (Z.lt_ge_cases (ptr - 1 + 2 ^ n) (2 ^ 64)) as [Hlow | Hhigh].
  - assert (Hxe : x = ptr - 1 + 2 ^ n) by (apply Z.mod_small; lia).
    assert (Heq : align_up ptr (2 ^ n) = x - x mod 2 ^ n).
    { apply multiple_close with (a := 2 ^ n); try assumption. lia. }
    rewrite <- Heq.
    assert (Hdiff : to_size_t (align_up ptr (2 ^ n) - ptr) = align_up ptr (2 ^ n) - ptr).
    { apply Z.mod_small. lia. }
    rewrite !Hdiff.
    destruct (Z.ltb_spec (space - size) (align_up ptr (2 ^ n) - ptr));
      destruct (Z.leb_spec (align_up ptr (2 ^ n) - ptr) (space - size)); try lia; reflexivity.
  - assert (Hxe : x = ptr - 1 + 2 ^ n - 2 ^ 64).
    { symmetry. apply Z.mod_unique_pos with (q := 1); lia. }
    assert (Heq : align_up ptr (2 ^ n) = x - x mod 2 ^ n + 2 ^ 64).
    { assert (H64 : (2 ^ 64) mod 2 ^ n = 0).
      { replace 64 with (64 - n + n) by lia. rewrite Z.pow_add_r by lia. apply Z_mod_mult. }
      apply multiple_close with (a := 2 ^ n); try assumption; [|lia].
      rewrite Zplus_mod, Hxm, H64. reflexivity. }
    assert (Hdiff : to_size_t (x - x mod 2 ^ n - ptr) = align_up ptr (2 ^ n) - ptr).
    { symmetry. apply Z.mod_unique_pos with (q := -1); lia. }
    rewrite !Hdiff.
    assert (x mod 2 ^ n <= x) by (apply Z.mod_le; lia).
    destruct (Z.ltb_spec (space - size) (align_up ptr (2 ^ n) - ptr));
      destruct (Z.leb_spec (align_up ptr (2 ^ n) - ptr) (space - size)); try lia; reflexivity.
Qed.

(** ** The region allocator *)

Section AllocatorFacts.
Import without_raii.
Variable page_addr : nat -> Z.

Abbreviation first_free := active_page_first_free_byte.
Abbreviation bytes_left := active_page_bytes_left.

Lemma allocate_block_unfold fuel a size alignment :
  allocate_block page_addr (S fuel) a size alignment =
    if size <=? MAX_SMALL_BLOCK_SIZE then
      match std_align alignment size (first_free (activated page_addr a)) (bytes_left (activated page_addr a)) with
      | Some (ptr, space) =>
          Ok (ptr, {| pages := pages (activated page_addr a);
                      active_page_first_free_byte := ptr + size;
                      active_page_bytes_left := to_size_t (space - size) |})
      | None => allocate_block page_addr fuel (retired (activated page_addr a)) size alignment
      end
    else Terminated too_large_diagnostic.
Proof. reflexivity. Qed.

Lemma activated_pages a : exists l, pages (activated page_addr a) = pages a ++ l /\ (length l <= 1)%nat.
Proof.
  unfold activated. destruct (first_free a =? 0); simpl.
  - eexists. split; [reflexivity | simpl; lia].
  - exists []. rewrite app_nil_r. split; [reflexivity | simpl; lia].
Qed.

Lemma allocate_block_pages fuel : forall a size alignment p a',
  allocate_block page_addr fuel a size alignment = Ok (p, a') ->
  exists l, pages a' = pages a ++ l.
Proof.
  induction fuel as [|fuel IH]; intros a size alignment p a' Hrun; [discriminate|].
  rewrite allocate_block_unfold in Hrun.
  destruct (size <=? MAX_SMALL_BLOCK_SIZE); [|discriminate].
  destruct (activated_pages a) as (l & Hl & _).
  destruct (std_align _ _ _ _) as [[ptr space]|].
  - inversion Hrun; subst; simpl. eauto.
  - apply IH in Hrun as (l' & Hl'). simpl in Hl'. rewrite Hl' , Hl, <- app_assoc. eauto.
Qed.

Lemma allocate_block_pages_length fuel a size alignment p a' :
  allocate_block page_addr fuel a size alignment = Ok (p, a') ->
  (length (pages a) <= length (pages a'))%nat.
Proof.
  intros H. apply allocate_block_pages in H as (l & ->). rewrite length_app. lia.
Qed.

Lemma pages_ok_le n m : (n <= m)%nat -> pages_ok page_addr m -> pages_ok page_addr n.
Proof. intros Hnm H i Hi. apply H. lia. Qed.

Lemma activated_shape a :
  Allocator_shape page_addr a -> pages_ok page_addr (length (pages (activated page_addr a))) ->
  first_free (activated page_addr a) <> 0 /\
  exists n, length (pages (activated page_addr a)) = S n /\
            pages (activated page_addr a) = map page_addr (seq 0 (S n)) /\
            page_addr n <= first_free (activated page_addr a) /\
            0 <= bytes_left (activated page_addr a) /\
            first_free (activated page_addr a) + bytes_left (activated page_addr a) = page_addr n + PAGE_SIZE.
Proof.
  intros [Hpages Hcur] Hok. unfold activated in *.
  destruct (Z.eqb_spec (first_free a) 0) as [Hnull | Hact];
    cbn [pages active_page_first_free_byte active_page_bytes_left] in *.
  - rewrite length_app in Hok. simpl in Hok.
    destruct (Hok (length (pages a)) ltac:(lia)) as (Hpos & _).
    split; [lia|]. exists (length (pages a)).
    split; [rewrite length_app; simpl; lia|]. split.
    + rewrite seq_S, map_app. simpl. congruence.
    + unfold PAGE_SIZE. lia.
  - split; [assumption|]. destruct Hcur as [? | (n & Hn & ?)]; [contradiction|].
    exists n. split; [assumption|]. split; [congruence | assumption].
Qed.

Lemma activated_used a q :
  pages_ok page_addr (length (pages (activated page_addr a))) ->
  used page_addr a q <-> used page_addr (activated page_addr a) q.
Proof.
  intros Hok. unfold activated in *.
  destruct (Z.eqb_spec (first_free a) 0) as [Hnull | Hact]; [|tauto].
  simpl in Hok. rewrite length_app in Hok. simpl in Hok.
  unfold used; simpl. rewrite length_app; simpl. split.
  - intros (i & Hi & Hq & _). exists i. repeat split; try lia.
  - intros (i & Hi & Hq & Hlast).
    destruct (Nat.eq_dec i (length (pages a))) as [-> | Hne].
    + destruct (Hok (length (pages a)) ltac:(lia)) as (Hpos & _).
      specialize (Hlast ltac:(lia) ltac:(lia)). lia.
    + exists i. repeat split; try lia.
Qed.

Lemma retired_used a q : used page_addr a q -> used page_addr (retired a) q.
Proof.
  intros (i & Hi & Hq & _). exists i. simpl. repeat split; try lia.
Qed.

Lemma retired_shape a :
  pages a = map page_addr (seq 0 (length (pages a))) -> Allocator_shape page_addr (retired a).
Proof. intros H. split; [exact H | left; reflexivity]. Qed.

(** What a returning call of [allocate_block] guarantees. *)
Lemma allocate_block_sound fuel : forall a size alignment p a',
  allocate_block page_addr fuel a size alignment = Ok (p, a') ->
  Allocator_shape page_addr a -> pages_ok page_addr (length (pages a')) ->
  0 <= size -> is_alignment alignment ->
  Allocator_shape page_addr a' /\
  0 < p /\ p mod alignment = 0 /\
  (exists page, In page (pages a') /\ page <= p /\ p + size <= page + PAGE_SIZE) /\
  (forall q, p <= q < p + size -> ~ used page_addr a q /\ used page_addr a' q) /\
  (forall q, used page_addr a q -> used page_addr a' q).
Proof.
  induction fuel as [|fuel IH]; intros a size alignment p a' Hrun Hshape Hok Hsize Hal;
    [discriminate|].
  rewrite allocate_block_unfold in Hrun.
  destruct (size <=? MAX_SMALL_BLOCK_SIZE); [|discriminate].
  assert (Hok1 : pages_ok page_addr (length (pages (activated page_addr a)))).
  { destruct (std_align _ _ _ _) as [[ptr space]|].
    - inversion Hrun; subst. exact Hok.
    - apply allocate_block_pages_length in Hrun. simpl in Hrun.
      eapply pages_ok_le; eassumption. }
  destruct (activated_shape a Hshape Hok1) as (Hnn & n & Hlen & Hpg & Hlo & Hleft & Hend).
  pose proof (activated_used a) as Hused1.
  destruct (Hok1 n ltac:(lia)) as (Hpos & Hfit & Hdisj).
  rewrite std_align_spec in Hrun by (try assumption; lia).
  set (a1 := activated page_addr a) in *.
  destruct (align_up_spec (first_free a1) alignment) as [Hup Hmul].
  { destruct Hal as (k & Hk & ->). apply Z.pow_pos_nonneg; lia. }
  destruct ((size <=? bytes_left a1) && (align_up (first_free a1) alignment - first_free a1 <=? bytes_left a1 - size)) eqn:Hfits.
  - apply andb_true_iff in Hfits as [Hf1 Hf2].
    apply Z.leb_le in Hf1, Hf2.
    inversion Hrun; subst p a'; clear Hrun.
    cbn [pages active_page_first_free_byte active_page_bytes_left] in *.
    set (p := align_up (first_free a1) alignment) in *.
    assert (Hsp : to_size_t (bytes_left a1 - (p - first_free a1) - size)
                  = bytes_left a1 - (p - first_free a1) - size).
    { apply Z.mod_small. lia. }
    split; [|split; [|split; [|split; [|split]]]].
    + split; simpl; [rewrite Hlen; exact Hpg|].
      right. exists n. rewrite Hsp. repeat split; try assumption; lia.
    + lia.
    + exact Hmul.
    + exists (page_addr n). split; [|lia].
      rewrite Hpg. apply in_map. apply in_seq. lia.
    + intros q Hq. split.
      * intros Hu. apply Hused1 in Hu; [|exact Hok1].
        destruct Hu as (i & Hi & Hqi & Hlast). fold a1 in Hi, Hlast.
        destruct (Nat.eq_dec i n) as [-> | Hne].
        -- specialize (Hlast ltac:(lia) Hnn). lia.
        -- destruct (Hdisj i ltac:(lia)); lia.
      * exists n. simpl. repeat split; try lia.
    + intros q Hu. apply Hused1 in Hu; [|exact Hok1].
      destruct Hu as (i & Hi & Hqi & Hlast). fold a1 in Hi, Hlast.
      exists i. simpl. repeat split; try lia.
  - assert (Hsh2 : Allocator_shape page_addr (retired a1)).
    { apply retired_shape. rewrite Hlen. exact Hpg. }
    destruct (IH _ _ _ _ _ Hrun Hsh2 Hok Hsize Hal) as (Hs' & Hp & Hm & Hin & Hfresh & Hmono).
    split; [exact Hs'|]. split; [exact Hp|]. split; [exact Hm|]. split; [exact Hin|].
    split.
    + intros q Hq. destruct (Hfresh q Hq) as [Hnew Hnow]. split; [|exact Hnow].
      intros Hu. apply Hnew. apply retired_used. apply Hused1; assumption.
    + intros q Hu. apply Hmono. apply retired_used. apply Hused1; assumption.
Qed.

(** A page that was just created serves any small block whose alignment
    leaves room for it. *)
Lemma fresh_page_serves fuel a size alignment :
  first_free a = 0 ->
  page_ok page_addr (length (pages a)) ->
  0 <= size <= MAX_SMALL_BLOCK_SIZE -> is_alignment alignment ->
  alignment <= PAGE_SIZE - MAX_SMALL_BLOCK_SIZE ->
  exists p a', allocate_block page_addr (S fuel) a size alignment = Ok (p, a') /\
               length (pages a') = S (length (pages a)).
Proof.
  intros Hnull (Hpos & Hfit & _) Hsize Hal Hsmall.
  rewrite allocate_block_unfold. unfold activated. rewrite Hnull. simpl Z.eqb. cbv iota.
  destruct (Z.leb_spec size MAX_SMALL_BLOCK_SIZE) as [_|?]; [|lia].
  cbn [pages active_page_first_free_byte active_page_bytes_left].
  unfold MAX_SMALL_BLOCK_SIZE, PAGE_SIZE in *.
  rewrite std_align_spec by (try assumption; lia).
  set (pg := page_addr (length (pages a))) in *.
  destruct (align_up_spec pg alignment) as [Hup _].
  { destruct Hal as (k & Hk & ->). apply Z.pow_pos_nonneg; lia. }
  destruct (Z.leb_spec size 65536) as [_|?]; [|lia].
  destruct (Z.leb_spec (align_up pg alignment - pg) (65536 - size)) as [_|?]; [|lia].
  simpl. do 2 eexists. split; [reflexivity|]. simpl. rewrite length_app. simpl. lia.
Qed.

(** A small block with such an alignment is served by the call itself or
    by its first retry. *)
Lemma allocate_block_returns fuel a size alignment :
  Allocator_shape page_addr a ->
  pages_ok page_addr (S (length (pages a))) ->
  0 <= size <= MAX_SMALL_BLOCK_SIZE -> is_alignment alignment ->
  alignment <= PAGE_SIZE - MAX_SMALL_BLOCK_SIZE ->
  exists p a', allocate_block page_addr (S (S fuel)) a size alignment = Ok (p, a') /\
               (length (pages a') <= S (length (pages a)))%nat.
Proof.
  intros Hshape Hok Hsize Hal Hsmall.
  destruct (Z.eq_dec (first_free a) 0) as [Hnull | Hact].
  { destruct (fresh_page_serves (S fuel) a size alignment) as (p & a' & Hrun & Hlen);
      try assumption; [apply Hok; lia|].
    exists p, a'. split; [assumption | lia]. }
  rewrite allocate_block_unfold.
  destruct (Z.leb_spec size MAX_SMALL_BLOCK_SIZE) as [_|?]; [|lia].
  assert (Hsame : activated page_addr a = a).
  { unfold activated. destruct (Z.eqb_spec (first_free a) 0); [contradiction | reflexivity]. }
  rewrite Hsame.
  destruct (std_align _ _ _ _) as [[ptr space]|].
  - do 2 eexists. split; [reflexivity|]. simpl. lia.
  - destruct (fresh_page_serves fuel (retired a) size alignment) as (p & a' & Hrun & Hlen);
      try assumption; [reflexivity | apply Hok; simpl; lia|].
    exists p, a'. split; [assumption|]. simpl in Hlen. lia.
Qed.

(** The blocks a region has handed out stay inside the used bytes. *)
Lemma served_invariant a bs :
  served page_addr a bs -> pages_ok page_addr (length (pages a)) ->
  Allocator_shape page_addr a /\
  Forall (fun b => block_addr b mod block_alignment b = 0 /\
                   (exists page, In page (pages a) /\ within_page page b) /\
                   (forall q, in_block b q -> used page_addr a q)) bs /\
  ForallOrdPairs (fun later earlier => ~ overlap later earlier) bs.
Proof.
  induction 1 as [| a bs fuel size alignment p a' Hserved IH Hsize Hal Hrun]; intros Hok.
  - split; [|split; constructor]. split; [reflexivity | left; reflexivity].
  - pose proof (allocate_block_pages _ _ _ _ _ _ Hrun) as (l & Hl).
    pose proof (allocate_block_pages_length _ _ _ _ _ _ Hrun) as Hlen.
    destruct (IH (pages_ok_le _ _ Hlen Hok)) as (Hshape & Hall & Hpairs).
    destruct (allocate_block_sound _ _ _ _ _ _ Hrun Hshape Hok ltac:(lia) Hal)
      as (Hshape' & Hp & Hmul & (page & Hin & Hpage) & Hfresh & Hmono).
    split; [exact Hshape'|]. split.
    + constructor.
      * simpl. split; [exact Hmul|]. split.
        -- exists page. split; [exact Hin | exact Hpage].
        -- intros q Hq. apply Hfresh. exact Hq.
      * eapply Forall_impl; [exact Hall|].
        intros b (Hb1 & (pg & Hpg & Hw) & Hb3). split; [exact Hb1|]. split.
        -- exists pg. split; [rewrite Hl; apply in_or_app; left; exact Hpg | exact Hw].
        -- intros q Hq. apply Hmono, Hb3, Hq.
    + constructor; [|exact Hpairs].
      rewrite Forall_forall in Hall |- *. intros b Hb (q & Hq1 & Hq2).
      destruct (Hall b Hb) as (_ & _ & Hu).
      destruct (Hfresh q Hq1) as [Hnew _]. apply Hnew, Hu, Hq2.
Qed.
End AllocatorFacts.

(** ** Outcomes and loops *)

Lemma bind_Ok {A B : Type} (m : Outcome A) (f : A -> Outcome B) (b : B) :
  m ≫= f = Ok b -> exists a, m = Ok a /\ f a = Ok b.
Proof. destruct m; simpl; intros H; try discriminate. eauto. Qed.

Lemma bind_Ok_l {A B : Type} (a : A) (f : A -> Outcome B) : Ok a ≫= f = f a.
Proof. reflexivity. Qed.

(** ** The counter *)

Lemma advanced_refl g : advanced g g 0.
Proof. intros z Hz. rewrite Z.add_0_r. exact Hz. Qed.

Lemma advanced_next g : advanced g (snd (next_node_id g)) 1.
Proof. intros z Hz. simpl. rewrite Hz. apply wrap_int_succ. Qed.

Lemma advanced_trans g1 g2 g3 n m :
  advanced g1 g2 n -> advanced g2 g3 m -> advanced g1 g3 (n + m).
Proof. intros H1 H2 z Hz. rewrite Z.add_assoc. apply H2, H1, Hz. Qed.

Lemma sum_of_powers_step k d :
  k * sum_of_powers k d + 1 = sum_of_powers k d + k ^ Z.of_nat (S d).
Proof.
  induction d as [|d IH].
  - simpl sum_of_powers. change (Z.of_nat 1) with 1. lia.
  - change (sum_of_powers k (S d)) with (sum_of_powers k d + k ^ Z.of_nat (S d)).
    rewrite (Nat2Z.inj_succ (S d)), Z.pow_succ_r by lia. lia.
Qed.

Lemma sum_of_powers_below k d : sum_of_powers k d = 1 + nodes_below k d.
Proof.
  induction d as [|d IH]; [reflexivity|].
  pose proof (sum_of_powers_step k d).
  change (sum_of_powers k (S d)) with (sum_of_powers k d + k ^ Z.of_nat (S d)).
  change (nodes_below k (S d)) with (k + k * nodes_below k d). lia.
Qed.

(** ** Trees of owned nodes *)

Section RaiiFacts.
Import with_raii.

Lemma Node_forall_ind (P : Node -> Prop) :
  (forall cs id, Forall P cs -> P (mkNode cs id)) -> forall t, P t.
Proof.
  intros H. fix IH 1. intros [cs id]. apply H.
  induction cs as [|c cs IHcs]; constructor; [apply IH | exact IHcs].
Qed.

Lemma sum_Z_app l1 l2 : sum_Z (l1 ++ l2) = sum_Z l1 + sum_Z l2.
Proof. induction l1 as [|x l1 IH]; simpl; [reflexivity | rewrite IH; lia]. Qed.

Lemma sum_Z_Permutation l1 l2 : Permutation l1 l2 -> sum_Z l1 = sum_Z l2.
Proof. induction 1; simpl; lia. Qed.

Lemma node_count_unfold cs id :
  node_count (mkNode cs id) = 1 + sum_Z (map node_count cs).
Proof.
  unfold node_count. simpl. rewrite Nat2Z.inj_succ.
  assert (H : Z.of_nat (length (flat_map node_ids cs)) = sum_Z (map (fun c => Z.of_nat (length (node_ids c))) cs)).
  { induction cs as [|c cs IH]; simpl; [reflexivity|].
    rewrite length_app, Nat2Z.inj_add, IH. reflexivity. }
  rewrite H. lia.
Qed.

(** One step of the checksum loop when nothing overflows. *)
Lemma checksum_step acc t :
  0 <= acc < 2 ^ 30 -> 0 <= t < 2 ^ 30 ->
  Z.rem (wrap_int (acc + t)) CHECKSUM_MODULUS = (acc + t) mod CHECKSUM_MODULUS.
Proof.
  intros Ha Ht. rewrite wrap_int_small by (unfold int_range; lia).
  apply Z.rem_mod_nonneg; unfold CHECKSUM_MODULUS; lia.
Qed.

Abbreviation checksum_loop :=
  (fold_left (fun checksum c => Z.rem (wrap_int (checksum + traverse c)) CHECKSUM_MODULUS)).

Lemma traverse_unfold cs id : traverse (mkNode cs id) = checksum_loop cs id.
Proof. reflexivity. Qed.

Lemma checksum_loop_sum cs : forall acc,
  0 <= acc < 2 ^ 30 -> Forall (fun c => 0 <= traverse c < 2 ^ 30) cs -> cs <> [] ->
  checksum_loop cs acc = (acc + sum_Z (map traverse cs)) mod CHECKSUM_MODULUS.
Proof.
  induction cs as [|c cs IH]; intros acc Hacc Hall Hne; [contradiction|].
  inversion Hall as [|? ? Hc Hcs]; subst. cbn [fold_left].
  rewrite checksum_step by assumption.
  destruct cs as [|c' cs'].
  - cbn [fold_left map sum_Z fold_right]. f_equal. lia.
  - rewrite IH; try assumption; [| |discriminate].
    + rewrite Zplus_mod_idemp_l. f_equal. cbn [map sum_Z fold_right]. lia.
    + pose proof (Z.mod_pos_bound (acc + traverse c) CHECKSUM_MODULUS).
      unfold CHECKSUM_MODULUS in *. lia.
Qed.

Lemma traverse_bounded t :
  Forall (fun i => 0 <= i < 2 ^ 30) (node_ids t) -> 0 <= traverse t < 2 ^ 30.
Proof.
  induction t as [cs id IH] using Node_forall_ind. intros Hids.
  simpl in Hids. inversion Hids as [|? ? Hid Hrest]; subst.
  assert (Hall : Forall (fun c => 0 <= traverse c < 2 ^ 30) cs).
  { clear Hid Hids. induction cs as [|c cs IHcs]; constructor.
    - inversion IH; subst. simpl in Hrest. apply Forall_app in Hrest as [Hc _]. auto.
    - inversion IH; subst. simpl in Hrest. apply Forall_app in Hrest as [_ Hr]. auto. }
  rewrite traverse_unfold. destruct cs as [|c cs]; [simpl; assumption|].
  rewrite checksum_loop_sum by (try assumption; discriminate).
  pose proof (Z.mod_pos_bound (id + sum_Z (map traverse (c :: cs))) CHECKSUM_MODULUS).
  unfold CHECKSUM_MODULUS in *. lia.
Qed.

Lemma flat_ids_forall (P : Z -> Prop) cs :
  Forall P (flat_map node_ids cs) -> Forall (fun c => Forall P (node_ids c)) cs.
Proof.
  induction cs as [|c cs IH]; simpl; intros H; constructor;
    apply Forall_app in H as [H1 H2]; auto.
Qed.

(** With identifiers below the modulus the checksum is their sum. *)
Lemma traverse_sum t :
  Forall (fun i => 0 <= i < CHECKSUM_MODULUS) (node_ids t) ->
  traverse t = sum_Z (node_ids t) mod CHECKSUM_MODULUS.
Proof.
  induction t as [cs id IH] using Node_forall_ind. intros Hids.
  simpl in Hids. inversion Hids as [|? ? Hid Hrest]; subst.
  apply flat_ids_forall in Hrest.
  rewrite traverse_unfold. simpl node_ids. simpl sum_Z.
  assert (Hloop : forall acc, 0 <= acc < CHECKSUM_MODULUS ->
            checksum_loop cs acc = (acc + sum_Z (flat_map node_ids cs)) mod CHECKSUM_MODULUS).
  { clear Hid Hids. induction cs as [|c cs IHcs]; intros acc Hacc.
    - simpl. rewrite Z.add_0_r. symmetry. apply Z.mod_small. exact Hacc.
    - inversion IH as [|? ? Hc Hcs]; subst. inversion Hrest as [|? ? Hrc Hrcs]; subst.
      simpl. rewrite (Hc Hrc).
      pose proof (Z.mod_pos_bound (sum_Z (node_ids c)) CHECKSUM_MODULUS ltac:(unfold CHECKSUM_MODULUS; lia)).
      rewrite checksum_step by (unfold CHECKSUM_MODULUS in *; lia).
      rewrite IHcs; try assumption.
      + rewrite Zplus_mod_idemp_r, Zplus_mod_idemp_l, sum_Z_app. f_equal. lia.
      + apply Z.mod_pos_bound. unfold CHECKSUM_MODULUS; lia. }
  apply Hloop. exact Hid.
Qed.

Lemma traverse_visiting_spec t : traverse_visiting t = (traverse t, node_ids t).
Proof.
  induction t as [cs id IH] using Node_forall_ind.
  change (traverse_visiting (mkNode cs id)) with
    (fold_left (fun '(checksum, visited) c =>
               let '(t, seen) := traverse_visiting c in
               (Z.rem (wrap_int (checksum + t)) CHECKSUM_MODULUS, visited ++ seen))
            cs (id, [id])).
  rewrite traverse_unfold. simpl node_ids.
  change (id :: flat_map node_ids cs) with ([id] ++ flat_map node_ids cs).
  generalize [id] as vis. generalize id as acc.
  induction cs as [|c cs IHcs]; intros acc vis; simpl.
  - rewrite app_nil_r. reflexivity.
  - inversion IH as [|? ? Hc Hcs]; subst. rewrite Hc, IHcs by assumption.
    rewrite <- app_assoc. reflexivity.
Qed.
End RaiiFacts.

Section RaiiBuild.
Import with_raii.
Variable k : Z.
Hypothesis k_nonneg : 0 <= k.

Lemma raii_new_Node g :
  new_Node tt k g = Ok (mkNode [] (n_nodes_created g), snd (next_node_id g)).
Proof.
  unfold new_Node. simpl. destruct (Z.ltb_spec k 0); [lia | reflexivity].
Qed.

Lemma raii_add_child node g :
  add_child tt k (node, g) =
    Ok (mkNode (children node ++ [mkNode [] (n_nodes_created g)]) (node_id node),
        snd (next_node_id g)).
Proof. unfold add_child. rewrite raii_new_Node. reflexivity. Qed.

Lemma raii_add_children n : forall node g,
  exists leaves g',
    for_loop n (add_child tt k) (node, g)
      = Ok (mkNode (children node ++ leaves) (node_id node), g') /\
    length leaves = n /\ Forall (fun c => children c = []) leaves /\
    advanced g g' (Z.of_nat n).
Proof.
  induction n as [|n IH]; intros node g.
  - exists [], g. rewrite app_nil_r. destruct node. simpl.
    repeat split; [constructor | apply advanced_refl].
  - cbn [for_loop]. rewrite raii_add_child. simpl mbind.
    destruct (IH (mkNode (children node ++ [mkNode [] (n_nodes_created g)]) (node_id node))
                 (snd (next_node_id g))) as (leaves & g' & Hrun & Hlen & Hleaves & Hadv).
    exists (mkNode [] (n_nodes_created g) :: leaves), g'.
    cbn [children node_id] in Hrun. rewrite <- app_assoc in Hrun.
    split; [exact Hrun|]. split; [simpl; lia|]. split; [constructor; [reflexivity | exact Hleaves]|].
    replace (Z.of_nat (S n)) with (1 + Z.of_nat n) by lia.
    eapply advanced_trans; [apply advanced_next | exact Hadv].
Qed.

Lemma for_each_mut_counts (body : Node -> AllocationStat -> Outcome (Node * AllocationStat)) C :
  (forall c g, children c = [] ->
     exists t g', body c g = Ok (t, g') /\ node_count t = 1 + C /\ advanced g g' C) ->
  forall cs g, Forall (fun c => children c = []) cs ->
  exists cs' g', for_each_mut cs body g = Ok (cs', g') /\
    sum_Z (map node_count cs') = Z.of_nat (length cs) * (1 + C) /\
    advanced g g' (Z.of_nat (length cs) * C).
Proof.
  intros Hbody. induction cs as [|c cs IH]; intros g Hleaves.
  - exists [], g. repeat split. apply advanced_refl.
  - inversion Hleaves as [|? ? Hc Hcs]; subst.
    destruct (Hbody c g Hc) as (t & g1 & Hrun & Hcount & Hadv).
    destruct (IH g1 Hcs) as (cs' & g' & Hrest & Hsum & Hadv').
    exists (t :: cs'), g'. cbn [for_each_mut]. rewrite Hrun. simpl mbind.
    rewrite Hrest. simpl mbind. split; [reflexivity|]. split.
    + cbn [map sum_Z fold_right]. fold (sum_Z (map node_count cs')).
      rewrite Hsum, Hcount. cbn [length]. lia.
    + replace (Z.of_nat (length (c :: cs)) * C) with (C + Z.of_nat (length cs) * C)
        by (cbn [length]; lia).
      eapply advanced_trans; eassumption.
Qed.

Lemma levels_succ l : 2 <= l -> levels l = S (levels (l - 1)).
Proof. intros H. unfold levels. lia. Qed.

Lemma levels_one l : l <= 1 -> levels l = 1%nat.
Proof. intros H. unfold levels. lia. Qed.

(** With enough fuel [build_subtree] returns, and it has created the nodes
    of the levels below the node it was given. *)
Lemma raii_build_subtree_returns fuel : forall l node g,
  children node = [] -> - 2 ^ 31 < l < 2 ^ 31 -> (levels l <= fuel)%nat ->
  exists t g', build_subtree k fuel tt node l g = Ok (t, g') /\
    node_id t = node_id node /\
    node_count t = 1 + nodes_below k (levels l) /\
    advanced g g' (nodes_below k (levels l)).
Proof.
  induction fuel as [|fuel IH]; intros l node g Hleaf Hl Hfuel.
  { unfold levels in Hfuel. lia. }
  cbn [build_subtree].
  destruct (raii_add_children (Z.to_nat k) node g) as (leaves & g1 & Hrun & Hlen & Hleaves & Hadv).
  rewrite Hrun. simpl mbind. rewrite Hleaf in *. cbn [app children node_id].
  rewrite wrap_int_small by (unfold int_range; lia).
  rewrite Z2Nat.id in Hadv by assumption.
  destruct (Z.leb_spec (l - 1) 0) as [Hlast | Hmore].
  - exists (mkNode leaves (node_id node)), g1. split; [reflexivity|].
    rewrite (levels_one l) by lia. cbn [nodes_below]. rewrite Z.mul_0_r, Z.add_0_r.
    split; [reflexivity|]. split; [|exact Hadv].
    rewrite node_count_unfold.
    assert (Hsum : sum_Z (map node_count leaves) = Z.of_nat (length leaves)).
    { clear Hrun Hlen. induction Hleaves as [|c cs Hc _ IHl]; [reflexivity|].
      cbn [map sum_Z fold_right length]. fold (sum_Z (map node_count cs)).
      rewrite IHl. destruct c as [cc ci]. simpl in Hc. subst cc.
      unfold node_count. simpl. lia. }
    rewrite Hsum, Hlen. lia.
  - rewrite (levels_succ l) in * by lia.
    destruct (for_each_mut_counts (fun c g => build_subtree k fuel tt c (l - 1) g)
                (nodes_below k (levels (l - 1)))) with (cs := leaves) (g := g1)
      as (cs' & g' & Hrest & Hsum & Hadv'); [|exact Hleaves|].
    { intros c g0 Hc. destruct (IH (l - 1) c g0 Hc ltac:(lia) ltac:(lia))
        as (t & g2 & Ht & _ & Hcount & Hadv2). eauto. }
    rewrite Hrest. simpl mbind. exists (mkNode cs' (node_id node)), g'.
    split; [reflexivity|]. split; [reflexivity|].
    rewrite Hlen, Z2Nat.id in * by assumption. split.
    + rewrite node_count_unfold, Hsum. cbn [nodes_below]. lia.
    + cbn [nodes_below]. eapply advanced_trans; eassumption.
Qed.

Lemma raii_build_tree_returns fuel d :
  - 2 ^ 31 < d < 2 ^ 31 -> (levels d <= fuel)%nat ->
  exists t g, build_tree k d fuel tt fresh_stat = Ok (t, g) /\
    node_count t = sum_of_powers k (levels d) /\
    n_nodes_created g = wrap_int (sum_of_powers k (levels d)).
Proof.
  intros Hd Hfuel. unfold build_tree. rewrite raii_new_Node. simpl mbind.
  destruct (raii_build_subtree_returns fuel d (mkNode [] 0) (snd (next_node_id fresh_stat)))
    as (t & g & Hrun & _ & Hcount & Hadv); try assumption; [reflexivity|].
  exists t, g. split; [exact Hrun|]. rewrite sum_of_powers_below.
  split; [exact Hcount|].
  apply (Hadv 1). reflexivity.
Qed.
End RaiiBuild.

(** ** Building inside the region *)

Section RegionBuild.
Import without_raii.
Variable page_addr : nat -> Z.
Variable k : Z.
Hypothesis k_range : 0 <= k <= 512.

Abbreviation shape := (Allocator_shape page_addr).
Abbreviation used_in := (used page_addr).
Abbreviation fresh := (fresh_addr page_addr).
Abbreviation grows := (grown page_addr).

Lemma grown_refl a : shape a -> grows a a 0.
Proof. intros H. split; [exact H|]. split; [lia | auto]. Qed.

Lemma grown_trans a1 a2 a3 n m :
  grows a1 a2 n -> grows a2 a3 m -> grows a1 a3 (n + m).
Proof.
  intros (_ & Hl1 & Hu1) (Hs & Hl2 & Hu2). split; [exact Hs|]. split; [lia | auto].
Qed.

Lemma fresh_grown a0 a1 a2 n q : grows a1 a2 n -> fresh a0 a1 q -> fresh a0 a2 q.
Proof. intros (_ & _ & Hu) [H1 H0]. split; auto. Qed.

Lemma fresh_earlier a0 a1 a2 n q : grows a0 a1 n -> fresh a1 a2 q -> fresh a0 a2 q.
Proof. intros (_ & _ & Hu) [H2 H1]. split; auto. Qed.

Lemma is_alignment_8 : is_alignment 8.
Proof. exists 3. split; [lia | reflexivity]. Qed.

Lemma allocate_block_total fuel a size alignment :
  shape a -> pages_ok page_addr (S (length (pages a))) ->
  0 <= size <= MAX_SMALL_BLOCK_SIZE -> is_alignment alignment ->
  alignment <= PAGE_SIZE - MAX_SMALL_BLOCK_SIZE ->
  exists p a', allocate_block page_addr (S (S fuel)) a size alignment = Ok (p, a') /\
    grows a a' 1 /\ 0 < p /\ p mod alignment = 0 /\
    (forall q, p <= q < p + size -> fresh a a' q).
Proof.
  intros Hshape Hok Hsize Hal Hsmall.
  destruct (allocate_block_returns page_addr fuel a size alignment)
    as (p & a' & Hrun & Hlen); try assumption.
  pose proof (allocate_block_pages_length _ _ _ _ _ _ _ Hrun) as Hlen'.
  destruct (allocate_block_sound _ _ _ _ _ _ _ Hrun Hshape) as (Hs' & Hp & Hm & _ & Hf & Hmono);
    [eapply pages_ok_le; eassumption | lia | assumption |].
  exists p, a'. split; [exact Hrun|]. split.
  { split; [exact Hs'|]. split; [lia | exact Hmono]. }
  split; [exact Hp|]. split; [exact Hm|].
  intros q Hq. destruct (Hf q Hq). split; assumption.
Qed.

Lemma vector_bytes : to_size_t (wrap_int (k * aligned_item_size sizeof_ptr alignof_ptr)) = 8 * k.
Proof.
  change (aligned_item_size sizeof_ptr alignof_ptr) with 8.
  rewrite wrap_int_small by (unfold int_range; lia).
  unfold to_size_t. rewrite Z.mod_small; lia.
Qed.

Lemma new_Vector_total fuel a :
  shape a -> pages_ok page_addr (S (length (pages a))) ->
  exists b a', new_Vector page_addr (S (S fuel)) a k
               = Ok ({| items := b; size := 0; max_size := k |}, a') /\
    grows a a' 1 /\
    (forall q, b <= q < b + 8 * k -> fresh a a' q).
Proof.
  intros Hshape Hok. unfold new_Vector. rewrite vector_bytes.
  destruct (allocate_block_total fuel a (8 * k) alignof_ptr)
    as (b & a' & Hrun & Hgrow & _ & _ & Hfresh); try assumption.
  - unfold MAX_SMALL_BLOCK_SIZE. lia.
  - apply is_alignment_8.
  - unfold alignof_ptr, PAGE_SIZE, MAX_SMALL_BLOCK_SIZE. lia.
  - rewrite Hrun. simpl mbind. eauto.
Qed.

Lemma new_Node_total fuel w :
  shape (allocator w) -> pages_ok page_addr (S (length (pages (allocator w)))) ->
  exists b a',
    new_Node page_addr (S (S fuel)) k w
      = Ok ({| children := {| items := b; size := 0; max_size := k |};
               node_id := n_nodes_created (g_stat w) |},
            {| g_stat := snd (next_node_id (g_stat w)); allocator := a';
               node_at := node_at w; slot_at := slot_at w |}) /\
    grows (allocator w) a' 1 /\
    (forall q, b <= q < b + 8 * k -> fresh (allocator w) a' q).
Proof.
  intros Hshape Hok. unfold new_Node.
  destruct (new_Vector_total fuel (allocator w) Hshape Hok) as (b & a' & Hrun & Hgrow & Hfresh).
  rewrite Hrun. simpl. eauto.
Qed.

Lemma new_object_Node_total fuel w :
  shape (allocator w) -> pages_ok page_addr (2 + length (pages (allocator w))) ->
  exists p b a',
    new_object_Node page_addr (S (S fuel)) k w
      = Ok (p, {| g_stat := snd (next_node_id (g_stat w)); allocator := a';
                  node_at := <[in_region p :=
                                 {| children := {| items := b; size := 0; max_size := k |};
                                    node_id := n_nodes_created (g_stat w) |}]> (node_at w);
                  slot_at := slot_at w |}) /\
    grows (allocator w) a' 2 /\
    fresh (allocator w) a' p /\
    (forall q, b <= q < b + 8 * k -> fresh (allocator w) a' q).
Proof.
  intros Hshape Hok. unfold new_object_Node.
  destruct (allocate_block_total fuel (allocator w) sizeof_Node alignof_Node)
    as (p & a1 & Hrun & Hgrow1 & _ & _ & Hfresh1); try assumption.
  - eapply pages_ok_le; [|exact Hok]. lia.
  - unfold sizeof_Node, MAX_SMALL_BLOCK_SIZE. lia.
  - apply is_alignment_8.
  - unfold alignof_Node, PAGE_SIZE, MAX_SMALL_BLOCK_SIZE. lia.
  - rewrite Hrun. simpl mbind.
    destruct Hgrow1 as (Hs1 & Hl1 & Hu1).
    destruct (new_Node_total fuel (set_allocator a1 w)) as (b & a' & Hnode & Hgrow2 & Hfresh2).
    + exact Hs1.
    + eapply pages_ok_le; [|exact Hok]. simpl. lia.
    + rewrite Hnode. simpl. exists p, b, a'. split; [reflexivity|].
      simpl in Hgrow2, Hfresh2.
      assert (Hg1 : grows (allocator w) a1 1) by (split; [exact Hs1 | split; [lia | exact Hu1]]).
      split; [apply (grown_trans _ _ _ 1 1 Hg1 Hgrow2)|]. split.
      * eapply fresh_grown; [exact Hgrow2|]. apply Hfresh1. unfold sizeof_Node. lia.
      * intros q Hq. eapply fresh_earlier; [exact Hg1|]. apply Hfresh2, Hq.
Qed.

Lemma ref_fresh_ne a a' r p : ref_used page_addr a r -> fresh a a' p -> in_region p <> r.
Proof. intros Hr [_ Hp] <-. apply Hp, Hr. Qed.

Lemma add_child_total fuel r w b j id :
  shape (allocator w) -> pages_ok page_addr (2 + length (pages (allocator w))) ->
  node_at w !! r = Some {| children := {| items := b; size := j; max_size := k |};
                           node_id := id |} ->
  0 <= j < k -> ref_used page_addr (allocator w) r ->
  exists p b' a',
    add_child page_addr (S (S fuel)) r k w
      = Ok {| g_stat := snd (next_node_id (g_stat w)); allocator := a';
              node_at :=
                <[r := {| children := {| items := b; size := j + 1; max_size := k |};
                          node_id := id |}]>
                  (<[in_region p :=
                       {| children := {| items := b'; size := 0; max_size := k |};
                          node_id := n_nodes_created (g_stat w) |}]> (node_at w));
              slot_at := <[b + 8 * j := p]> (slot_at w) |} /\
    grows (allocator w) a' 2 /\
    fresh (allocator w) a' p /\
    (forall q, b' <= q < b' + 8 * k -> fresh (allocator w) a' q).
Proof.
  intros Hshape Hok Hnode Hj Hr. unfold add_child.
  destruct (new_object_Node_total fuel w Hshape Hok) as (p & b' & a' & Hrun & Hgrow & Hp & Hb').
  rewrite Hrun. simpl mbind. cbn [node_at slot_at g_stat allocator].
  rewrite lookup_insert_ne by (eapply ref_fresh_ne; eassumption).
  rewrite Hnode. simpl mbind. unfold push_back. cbn [children size max_size items node_id].
  destruct (Z.ltb_spec j k) as [_|?]; [|lia]. simpl mbind.
  rewrite (wrap_int_small (j + 1)) by (unfold int_range; lia).
  exists p, b', a'. unfold sizeof_ptr.
  split; [reflexivity|]. split; [exact Hgrow|]. split; [exact Hp | exact Hb'].
Qed.

Lemma ref_used_grown a a' n r :
  grows a a' n -> ref_used page_addr a r -> ref_used page_addr a' r.
Proof. intros (_ & _ & Hu). destruct r; simpl; auto. Qed.

(** The first loop of [build_subtree], in both programs at once. *)
Lemma add_children_total fuel r b id : forall n j w cs,
  shape (allocator w) ->
  pages_ok page_addr (2 * n + length (pages (allocator w))) ->
  node_at w !! r = Some {| children := {| items := b; size := j; max_size := k |};
                           node_id := id |} ->
  0 <= j -> j + Z.of_nat n <= k -> ref_used page_addr (allocator w) r ->
  exists kids w',
    for_loop n (add_child page_addr (S (S fuel)) r k) w = Ok w' /\
    for_loop n (with_raii.add_child tt k) (with_raii.mkNode cs id, g_stat w)
      = Ok (with_raii.mkNode (cs ++ map leaf_of kids) id, g_stat w') /\
    length kids = n /\
    node_at w' !! r = Some {| children := {| items := b; size := j + Z.of_nat n;
                                             max_size := k |};
                              node_id := id |} /\
    (forall i kid, kids !! i = Some kid ->
       slot_at w' !! (b + 8 * (j + Z.of_nat i)) = Some (kid_ptr kid)) /\
    Forall (kid_ready page_addr k w' (allocator w) (allocator w')) kids /\
    ForallOrdPairs (kid_apart k) kids /\
    grows (allocator w) (allocator w') (2 * n) /\
    (forall r', ref_used page_addr (allocator w) r' -> r' <> r ->
       node_at w' !! r' = node_at w !! r') /\
    (forall q, ~ (b + 8 * j <= q < b + 8 * (j + Z.of_nat n)) ->
       slot_at w' !! q = slot_at w !! q).
Proof.
  induction n as [|n IH]; intros j w cs Hshape Hok Hnode Hj Hjn Hr.
  - exists [], w. cbn [for_loop map]. rewrite app_nil_r, Z.add_0_r.
    split; [reflexivity|]. split; [reflexivity|]. split; [reflexivity|].
    split; [exact Hnode|]. split; [intros i kid Hi; discriminate|].
    split; [constructor|]. split; [constructor|].
    split; [apply grown_refl, Hshape|]. split; auto.
  - destruct (add_child_total fuel r w b j id) as (p0 & b0 & a1 & Hstep & Hgrow1 & Hp0 & Hb0);
      try assumption; [eapply pages_ok_le; [|exact Hok]; lia | lia |].
    set (kid0 := {| kid_ptr := p0; kid_slots := b0; kid_id := n_nodes_created (g_stat w) |}).
    match type of Hstep with _ = Ok ?x => set (w1 := x) in * end.
    assert (Hr1 : ref_used page_addr (allocator w1) r)
      by (eapply ref_used_grown; [exact Hgrow1 | exact Hr]).
    assert (Hne0 : in_region p0 <> r) by exact (ref_fresh_ne _ _ _ _ Hr Hp0).
    destruct (IH (j + 1) w1 (cs ++ [leaf_of kid0]))
      as (kids & w' & Hrun & Hraii & Hlen & Hnode' & Hslots & Hready & Hapart & Hgrow
          & Hfn & Hfs).
    + apply Hgrow1.
    + eapply pages_ok_le; [|exact Hok]. destruct Hgrow1 as (_ & Hl & _).
      cbn [allocator w1]. lia.
    + cbn [node_at w1]. apply lookup_insert_eq.
    + lia.
    + lia.
    + exact Hr1.
    + exists (kid0 :: kids), w'. cbn [for_loop].
      rewrite Hstep, (raii_add_child k ltac:(lia)). simpl mbind.
      split; [exact Hrun|]. split.
      { rewrite <- app_assoc in Hraii. exact Hraii. }
      split; [cbn [length]; lia|]. split.
      { rewrite Hnode'. do 3 f_equal. lia. }
      split.
      { intros [|i] kid Hi.
        - injection Hi as <-. rewrite Hfs by lia. cbn [slot_at w1 kid_ptr kid0].
          replace (b + 8 * (j + Z.of_nat 0)) with (b + 8 * j) by lia.
          apply lookup_insert_eq.
        - cbn [lookup] in Hi. rewrite <- (Hslots i kid Hi). f_equal. lia. }
      split.
      { constructor.
        - split; [|split].
          + rewrite Hfn; [| exact (proj1 Hp0) | exact Hne0].
            cbn [node_at w1 kid_ptr kid0 kid_slots kid_id].
            rewrite lookup_insert_ne by congruence. apply lookup_insert_eq.
          + eapply fresh_grown; [exact Hgrow | exact Hp0].
          + intros q Hq. eapply fresh_grown; [exact Hgrow | exact (Hb0 q Hq)].
        - eapply Forall_impl; [exact Hready|].
          intros kid (Hk1 & Hk2 & Hk3). split; [exact Hk1|]. split.
          + eapply fresh_earlier; [exact Hgrow1 | exact Hk2].
          + intros q Hq. eapply fresh_earlier; [exact Hgrow1 | exact (Hk3 q Hq)]. }
      split.
      { constructor; [|exact Hapart].
        eapply Forall_impl; [exact Hready|].
        intros kid (_ & Hk2 & Hk3). split.
        - cbn [kid_ptr kid0]. intros ->. apply (proj2 Hk2), (proj1 Hp0).
        - intros q [Hq0 Hq]. cbn [kid_slots kid0] in Hq0.
          apply (proj2 (Hk3 q Hq)), (proj1 (Hb0 q Hq0)). }
      split.
      { replace (2 * S n)%nat with (2 + 2 * n)%nat by lia.
        eapply grown_trans; [exact Hgrow1 | exact Hgrow]. }
      split.
      { intros r' Hr' Hne. rewrite Hfn; [| eapply ref_used_grown; eassumption | exact Hne].
        cbn [node_at w1]. rewrite lookup_insert_ne by congruence.
        apply lookup_insert_ne. exact (ref_fresh_ne _ _ _ _ Hr' Hp0). }
      { intros q Hq. rewrite Hfs by lia. cbn [slot_at w1].
        apply lookup_insert_ne. lia. }
Qed.
End RegionBuild.

(** ** Trees in the region *)

Section ReprFacts.
Import without_raii.
Variable page_addr : nat -> Z.

Lemma repr_transport P Q P' Q' w w' r t :
  repr P Q w r t ->
  (forall r', P r' -> P' r' /\ node_at w' !! r' = node_at w !! r') ->
  (forall q, Q q -> Q' q /\ slot_at w' !! q = slot_at w !! q) ->
  repr P' Q' w' r t.
Proof.
  intros Hrepr HP HQ.
  induction Hrepr as [r n ps cs id Hr Hn Hid Hsize Hlen Hslots Hkids IH].
  destruct (HP r Hr) as [Hr' Hsame].
  apply repr_node with (n := n) (ps := ps); try assumption.
  - rewrite Hsame. exact Hn.
  - intros i p Hi. destruct (Hslots i p Hi) as [Hq Hs].
    destruct (HQ _ Hq) as [Hq' Hsame']. split; [exact Hq' | rewrite Hsame'; exact Hs].
Qed.

Lemma repr_weaken P Q P' Q' w r t :
  repr P Q w r t -> (forall r', P r' -> P' r') -> (forall q, Q q -> Q' q) ->
  repr P' Q' w r t.
Proof.
  intros H HP HQ. eapply repr_transport; [exact H | |]; intros; split; auto.
Qed.

Lemma slot_addrs_eq b n m :
  slot_addrs {| items := b; size := Z.of_nat n; max_size := m |}
  = map (fun i => b + 8 * Z.of_nat i) (seq 0 n).
Proof.
  unfold slot_addrs, begin_, end_, sizeof_ptr. cbn [items size].
  replace (b + 8 * Z.of_nat n - b) with (Z.of_nat n * 8) by lia.
  rewrite Z.div_mul by lia. rewrite Nat2Z.id. reflexivity.
Qed.

Lemma slot_addrs_repr (v : Vector) (n : nat) :
  size v = Z.of_nat n ->
  slot_addrs v = map (slot_addr v) (seq 0 n).
Proof.
  intros Hsize. destruct v as [b sz m]. cbn [size] in Hsize. subst sz.
  rewrite slot_addrs_eq. reflexivity.
Qed.

Lemma height_child c cs id :
  In c cs -> (with_raii.height c < with_raii.height (with_raii.mkNode cs id))%nat.
Proof.
  cbn [with_raii.height with_raii.children]. induction cs as [|c' cs IH]; intros Hin.
  - destruct Hin.
  - cbn [fold_right]. destruct Hin as [-> | Hin]; [lia|]. specialize (IH Hin). lia.
Qed.

(** The walk over a represented tree returns what the walk over the owned
    tree returns. *)
Lemma traverse_repr P Q w r t :
  repr P Q w r t ->
  forall fuel, (with_raii.height t <= fuel)%nat ->
  traverse fuel w r = Ok (with_raii.traverse t).
Proof.
  induction 1 as [r n ps cs id Hr Hn Hid Hsize Hlen Hslots Hkids IH].
  intros fuel Hfuel. destruct fuel as [|fuel].
  { cbn [with_raii.height] in Hfuel. lia. }
  cbn [traverse]. rewrite Hn. simpl mbind. rewrite Hid.
  rewrite (slot_addrs_repr _ (length ps)) by exact Hsize.
  change (with_raii.traverse (with_raii.mkNode cs id)) with
    (fold_left (fun checksum c =>
                  Z.rem (wrap_int (checksum + with_raii.traverse c)) CHECKSUM_MODULUS) cs id).
  assert (Hgen : forall (ps' : list Z) (cs' : list with_raii.Node) (j : nat) acc,
    length ps' = length cs' ->
    (forall i p, ps' !! i = Some p -> ps !! (j + i)%nat = Some p) ->
    (forall i c, cs' !! i = Some c -> cs !! (j + i)%nat = Some c) ->
    for_each (map (slot_addr (children n)) (seq j (length ps')))
      (fun q checksum =>
         c ← from_option (slot_at w !! q);
         t ← traverse fuel w (in_region c);
         Ok (Z.rem (wrap_int (checksum + t)) CHECKSUM_MODULUS)) acc
    = Ok (fold_left (fun checksum c =>
            Z.rem (wrap_int (checksum + with_raii.traverse c)) CHECKSUM_MODULUS) cs' acc)).
  { induction ps' as [|p ps' IHps]; intros cs' j acc Hl Hps Hcs.
    - destruct cs'; [reflexivity | discriminate].
    - destruct cs' as [|c cs']; [discriminate|].
      cbn [length seq map for_each fold_left].
      pose proof (Hps 0%nat p eq_refl) as Hp. pose proof (Hcs 0%nat c eq_refl) as Hc.
      rewrite Nat.add_0_r in Hp, Hc.
      destruct (Hslots j p Hp) as [_ Hslot]. rewrite Hslot. simpl mbind.
      rewrite (IH j p c Hp Hc fuel).
      + simpl mbind. apply IHps.
        * simpl in Hl. lia.
        * intros i p' Hi. replace (S j + i)%nat with (j + S i)%nat by lia. apply Hps. exact Hi.
        * intros i c' Hi. replace (S j + i)%nat with (j + S i)%nat by lia. apply Hcs. exact Hi.
      + assert (Hin : In c cs).
        { apply list_elem_of_In. apply list_elem_of_lookup. eauto. }
        pose proof (height_child c cs id Hin). lia. }
  apply (Hgen ps cs 0%nat id Hlen); auto.
Qed.
End ReprFacts.

Section TreeShapes.
Import with_raii.

Lemma for_each_mut_cons {A S : Type} (x : A) xs (body : A -> S -> Outcome (A * S)) s ys s' :
  for_each_mut (x :: xs) body s = Ok (ys, s') ->
  exists y s1 ys', body x s = Ok (y, s1) /\ for_each_mut xs body s1 = Ok (ys', s') /\
                   ys = y :: ys'.
Proof.
  cbn [for_each_mut]. intros H.
  apply bind_Ok in H as ([y s1] & Hy & H).
  apply bind_Ok in H as ([ys' s2] & Hys & H).
  injection H as <- <-. eauto 6.
Qed.

Lemma for_each_mut_length {A S : Type} (body : A -> S -> Outcome (A * S)) xs :
  forall s ys s', for_each_mut xs body s = Ok (ys, s') -> length ys = length xs.
Proof.
  induction xs as [|x xs IH]; intros s ys s' H.
  - injection H as <- _. reflexivity.
  - apply for_each_mut_cons in H as (y & s1 & ys' & _ & Hrest & ->).
    cbn [length]. f_equal. eapply IH, Hrest.
Qed.

Lemma descendants_of_cons c cs :
  descendants_of (c :: cs) = (descendants c + descendants_of cs)%nat.
Proof. unfold descendants_of, descendants. cbn [flat_map]. apply length_app. Qed.

Lemma descendants_unfold cs id :
  descendants (mkNode cs id) = (length cs + descendants_of cs)%nat.
Proof.
  unfold descendants. cbn [children].
  induction cs as [|c cs IH]; [reflexivity|].
  rewrite descendants_of_cons. cbn [flat_map length].
  rewrite length_app, IH. destruct c as [cc ci]. unfold descendants. cbn [node_ids length children]. lia.
Qed.

Lemma map_lookup_Some {A B : Type} (f : A -> B) (l : list A) i y :
  map f l !! i = Some y -> exists x, l !! i = Some x /\ y = f x.
Proof.
  revert i. induction l as [|x l IH]; intros [|i] H; try discriminate.
  - injection H as <-. eauto.
  - apply IH. exact H.
Qed.
End TreeShapes.

Section RaiiKids.
Import with_raii.
Variable k : Z.
Hypothesis k_nonneg : 0 <= k.

(** A built node has its [k] children, whatever lies below them. *)
Lemma raii_build_subtree_kids fuel l id g t g' :
  build_subtree k fuel tt (mkNode [] id) l g = Ok (t, g') ->
  (Z.to_nat k <= descendants t)%nat.
Proof.
  destruct fuel as [|fuel]; [discriminate|]. cbn [build_subtree].
  destruct (raii_add_children k k_nonneg (Z.to_nat k) (mkNode [] id) g)
    as (leaves & g1 & Hloop & Hlen & _ & _).
  rewrite Hloop. simpl mbind. cbn [children app node_id].
  destruct (wrap_int (l - 1) <=? 0).
  - intros H. injection H as <- _. rewrite descendants_unfold. lia.
  - intros H. apply bind_Ok in H as ([cs' g2] & Hrest & H). injection H as <- _.
    apply for_each_mut_length in Hrest. rewrite descendants_unfold. lia.
Qed.
End RaiiKids.

(** ** The region build against the owning build *)

Section RegionSimulation.
Import without_raii.
Variable page_addr : nat -> Z.
Variable k : Z.
Hypothesis k_range : 0 <= k <= 512.

Abbreviation shape := (Allocator_shape page_addr).
Abbreviation used_in := (used page_addr).
Abbreviation fresh := (fresh_addr page_addr).
Abbreviation grows := (grown page_addr).

Lemma fresh_ref_in_region a0 a p :
  fresh_ref page_addr a0 a (in_region p) <-> fresh a0 a p.
Proof. reflexivity. Qed.

(** The second loop of [build_subtree], given that the calls it makes are
    simulated. *)
Lemma build_children_sim f l b a0 :
  subtree_simulated page_addr k f ->
  (forall q, b <= q < b + 8 * k -> used_in a0 q) ->
  forall kids j w cs' g',
    shape (allocator w) ->
    (forall q, used_in a0 q -> used_in (allocator w) q) ->
    Forall (kid_ready page_addr k w a0 (allocator w)) kids ->
    ForallOrdPairs (kid_apart k) kids ->
    (forall i kid, kids !! i = Some kid ->
       slot_at w !! (b + 8 * Z.of_nat (j + i)) = Some (kid_ptr kid)) ->
    Z.of_nat (j + length kids) <= k ->
    for_each_mut (map leaf_of kids)
      (fun c g => with_raii.build_subtree k f tt c l g) (g_stat w) = Ok (cs', g') ->
    pages_ok page_addr (2 * with_raii.descendants_of cs' + length (pages (allocator w))) ->
    exists w',
      for_each (map (fun i => b + 8 * Z.of_nat i) (seq j (length kids)))
        (fun q w => c ← from_option (slot_at w !! q);
                    build_subtree page_addr k (S f) (in_region c) l w) w = Ok w' /\
      g_stat w' = g' /\
      grows (allocator w) (allocator w') (2 * with_raii.descendants_of cs') /\
      length cs' = length kids /\
      (forall i kid c', kids !! i = Some kid -> cs' !! i = Some c' ->
         repr (fresh_ref page_addr a0 (allocator w')) (fresh a0 (allocator w')) w'
              (in_region (kid_ptr kid)) c') /\
      (forall r', ref_used page_addr (allocator w) r' ->
         Forall (fun kid => r' <> in_region (kid_ptr kid)) kids ->
         node_at w' !! r' = node_at w !! r') /\
      (forall q, used_in (allocator w) q ->
         Forall (fun kid => ~ (kid_slots kid <= q < kid_slots kid + 8 * k)) kids ->
         slot_at w' !! q = slot_at w !! q).
Proof.
  intros Hsim Hblock.
  induction kids as [|kid0 kids IH];
    intros j w cs' g' Hshape Hmono Hready Hapart Hslots Hbound Hraii Hpages.
  - injection Hraii as <- <-. exists w. cbn [length seq map for_each].
    split; [reflexivity|]. split; [reflexivity|].
    split; [apply grown_refl, Hshape|]. split; [reflexivity|].
    split; [intros i kid c' Hi; discriminate|]. split; auto.
  - cbn [map] in Hraii.
    apply for_each_mut_cons in Hraii as (c0 & g1 & cs'' & Hc0 & Hrest & ->).
    inversion Hready as [|? ? (Hn0 & Hp0 & Hb0) Hready']; subst.
    inversion Hapart as [|? ? Hapart0 Hapart']; subst.
    rewrite descendants_of_cons in *.
    destruct (Hsim (in_region (kid_ptr kid0)) l w (kid_slots kid0) (kid_id kid0) c0 g1)
      as (w1 & Hrun1 & Hg1 & Hgrow1 & Hrepr0 & Hfn1 & Hfs1); try assumption.
    { exact (proj1 Hp0). }
    { intros q Hq. exact (proj1 (Hb0 q Hq)). }
    { eapply pages_ok_le; [|exact Hpages]. lia. }
    pose proof Hgrow1 as (Hshape1 & Hlen1 & Hmono1).
    assert (Hkids : Forall (fun kid => kid_ready page_addr k w a0 (allocator w) kid /\
                                       kid_apart k kid0 kid) kids).
    { apply Forall_and. split; assumption. }
    destruct (IH (S j) w1 cs'' g') as (w' & Hrun' & Hg' & Hgrow' & Hlen' & Hrepr' & Hfn' & Hfs').
    + exact Hshape1.
    + intros q Hq. apply Hmono1, Hmono, Hq.
    + eapply Forall_impl; [exact Hkids|].
      intros kid ((Hn & Hp & Hb) & (Hne & _)). split; [|split].
      * rewrite Hfn1; [exact Hn | exact (proj1 Hp) | congruence].
      * eapply fresh_grown; [exact Hgrow1 | exact Hp].
      * intros q Hq. eapply fresh_grown; [exact Hgrow1 | exact (Hb q Hq)].
    + exact Hapart'.
    + intros i kid Hi.
      pose proof (lookup_lt_Some _ _ _ Hi) as Hilt.
      replace (S j + i)%nat with (j + S i)%nat by lia.
      assert (Hq : b <= b + 8 * Z.of_nat (j + S i) < b + 8 * k) by (cbn [length] in Hbound; lia).
      rewrite Hfs1.
      * apply Hslots. exact Hi.
      * apply Hmono, Hblock, Hq.
      * intros Hq0. exact (proj2 (Hb0 _ Hq0) (Hblock _ Hq)).
    + cbn [length] in Hbound. lia.
    + rewrite Hg1. exact Hrest.
    + eapply pages_ok_le; [|exact Hpages]. lia.
    + exists w'. cbn [length seq map for_each].
      rewrite <- (Nat.add_0_r j) at 1. rewrite (Hslots 0%nat kid0 eq_refl).
      cbn [from_option]. rewrite bind_Ok_l, Hrun1, bind_Ok_l.
      split; [exact Hrun'|]. split; [exact Hg'|]. split.
      { replace (2 * (with_raii.descendants c0 + with_raii.descendants_of cs''))%nat
          with (2 * with_raii.descendants c0 + 2 * with_raii.descendants_of cs'')%nat by lia.
        eapply grown_trans; eassumption. }
      split; [cbn [length]; lia|].
      pose proof Hgrow' as (_ & _ & Hmono').
      split; [|split].
      * intros [|i] kid c' Hi Hc'.
        -- injection Hi as <-. injection Hc' as <-.
           eapply repr_transport; [exact Hrepr0 | |].
           ++ intros r' [-> | [Hr1 Hr0]].
              ** split.
                 --- apply fresh_ref_in_region. eapply fresh_grown; [exact Hgrow'|].
                     eapply fresh_grown; [exact Hgrow1 | exact Hp0].
                 --- apply Hfn'; [simpl; apply Hmono1; exact (proj1 Hp0)|].
                     eapply Forall_impl; [exact Hapart0|].
                     intros kid [Hne _]. congruence.
              ** split.
                 --- split; [eapply ref_used_grown; [exact Hgrow' | exact Hr1]|].
                     intros Hr. apply Hr0. destruct r'; [exact I | simpl in *; auto].
                 --- apply Hfn'; [exact Hr1|].
                     eapply Forall_impl; [exact Hready'|].
                     intros kid (_ & Hp & _) ->. apply Hr0. exact (proj1 Hp).
           ++ intros q [Hq | [Hq1 Hq0]].
              ** split.
                 --- eapply fresh_grown; [exact Hgrow'|].
                     eapply fresh_grown; [exact Hgrow1 | exact (Hb0 q Hq)].
                 --- apply Hfs'; [apply Hmono1; exact (proj1 (Hb0 q Hq))|].
                     eapply Forall_impl; [exact Hapart0|].
                     intros kid [_ Hdis] Hqk. exact (Hdis q (conj Hq Hqk)).
              ** split.
                 --- split; [apply Hmono'; exact Hq1 | auto].
                 --- apply Hfs'; [exact Hq1|].
                     eapply Forall_impl; [exact Hready'|].
                     intros kid (_ & _ & Hbk) Hqk. apply Hq0. exact (proj1 (Hbk q Hqk)).
        -- apply (Hrepr' i kid c'); assumption.
      * intros r' Hr' Hne. inversion Hne as [|? ? Hne0 Hne']; subst.
        rewrite Hfn'; [| eapply ref_used_grown; [exact Hgrow1 | exact Hr'] | exact Hne'].
        apply Hfn1; assumption.
      * intros q Hq Hne. inversion Hne as [|? ? Hne0 Hne']; subst.
        rewrite Hfs'; [| apply Hmono1; exact Hq | exact Hne'].
        apply Hfs1; assumption.
Qed.
Lemma region_build_subtree_unfold fuel r l w :
  build_subtree page_addr k (S fuel) r l w =
    (w ← for_loop (Z.to_nat k) (add_child page_addr (S fuel) r k) w;
     if wrap_int (l - 1) <=? 0 then Ok w
     else
       n ← from_option (node_at w !! r);
       for_each (slot_addrs (children n))
                (fun q w =>
                   c ← from_option (slot_at w !! q);
                   build_subtree page_addr k fuel (in_region c) (wrap_int (l - 1)) w)
                w).
Proof. reflexivity. Qed.

Lemma leaf_descendants kids :
  with_raii.descendants_of (map leaf_of kids) = 0%nat.
Proof.
  induction kids as [|kid kids IH]; [reflexivity|].
  cbn [map]. rewrite descendants_of_cons, IH. reflexivity.
Qed.

(** [build_subtree] in the region follows [build_subtree] on owned nodes. *)
Lemma build_subtree_simulated fuel : subtree_simulated page_addr k fuel.
Proof.
  induction fuel as [|f IHf];
    intros r l w b id t g' Hshape Hnode Hr Hblock Hraii Hpages; [discriminate|].
  pose proof (raii_build_subtree_kids k ltac:(lia) _ _ _ _ _ _ Hraii) as Hbudget.
  destruct (add_children_total page_addr k k_range f r b id (Z.to_nat k) 0 w [])
    as (kids & w1 & Hrun1 & Hraii1 & Hlen & Hnode1 & Hslots1 & Hready & Hapart & Hgrow1
        & Hfn1 & Hfs1); try assumption; try lia.
  { eapply pages_ok_le; [|exact Hpages]. lia. }
  pose proof Hgrow1 as (Hshape1 & Hlen1 & Hmono1).
  cbn [with_raii.build_subtree] in Hraii. rewrite Hraii1, bind_Ok_l in Hraii.
  cbn [app with_raii.children with_raii.node_id] in Hraii.
  rewrite region_build_subtree_unfold, Hrun1, bind_Ok_l.
  assert (Hk : Z.of_nat (length kids) = k) by lia.
  replace (0 + Z.of_nat (Z.to_nat k)) with (Z.of_nat (length kids)) in Hnode1 by lia.
  assert (Hkid_used : forall kid, kid ∈ kids -> used_in (allocator w) (kid_ptr kid) -> False).
  { intros kid Hin Hu. rewrite Forall_forall in Hready.
    destruct (Hready kid Hin) as (_ & Hp & _). exact (proj2 Hp Hu). }
  assert (Hkid_block : forall kid q, kid ∈ kids ->
            kid_slots kid <= q < kid_slots kid + 8 * k -> used_in (allocator w) q -> False).
  { intros kid q Hin Hq Hu. rewrite Forall_forall in Hready.
    destruct (Hready kid Hin) as (_ & _ & Hb).
    exact (proj2 (Hb q Hq) Hu). }
  assert (Hroot_slots : forall i kid, kids !! i = Some kid ->
            b <= b + 8 * Z.of_nat i < b + 8 * k /\
            slot_at w1 !! (b + 8 * Z.of_nat i) = Some (kid_ptr kid)).
  { intros i kid Hi. pose proof (lookup_lt_Some _ _ _ Hi). split; [lia|].
    rewrite <- (Hslots1 i kid Hi). f_equal. }
  destruct (Z.leb_spec (wrap_int (l - 1)) 0) as [Hlast | Hmore].
  - injection Hraii as <- <-. exists w1.
    rewrite descendants_unfold, leaf_descendants, length_map, Nat.add_0_r, Hlen.
    split; [reflexivity|]. split; [reflexivity|]. split; [exact Hgrow1|].
    split; [|split].
    + eapply repr_node with (ps := map kid_ptr kids); [left; reflexivity | exact Hnode1 | reflexivity | | | |].
      * cbn [children size]. rewrite length_map. reflexivity.
      * rewrite !length_map. reflexivity.
      * intros i p Hi. apply map_lookup_Some in Hi as (kid & Hi & ->).
        unfold slot_addr, sizeof_ptr. cbn [children items].
        destruct (Hroot_slots i kid Hi) as [Hq Hs]. split; [left; exact Hq | exact Hs].
      * intros i p c Hp Hc.
        apply map_lookup_Some in Hp as (kid & Hi & ->).
        apply map_lookup_Some in Hc as (kid' & Hi' & ->).
        assert (kid' = kid) by congruence. subst kid'.
        rewrite Forall_forall in Hready.
        destruct (Hready kid) as (Hn & Hp & Hb); [apply list_elem_of_lookup; eauto|].
        eapply repr_node with (ps := []); [right; exact Hp | exact Hn | reflexivity
                                          | reflexivity | reflexivity | |];
          intros; discriminate.
    + exact Hfn1.
    + intros q Hq Hout. apply Hfs1. lia.
  - apply bind_Ok in Hraii as ([cs' g2] & Hrest & Hraii). injection Hraii as <- <-.
    rewrite Hnode1. cbn [from_option]. rewrite bind_Ok_l. cbn [children].
    rewrite slot_addrs_eq.
    assert (Hcs' : length cs' = length kids).
    { apply for_each_mut_length in Hrest. rewrite length_map in Hrest. exact Hrest. }
    rewrite descendants_unfold in *.
    destruct (build_children_sim f (wrap_int (l - 1)) b (allocator w) IHf Hblock kids 0%nat w1 cs' g2)
      as (w' & Hrun' & Hg' & Hgrow' & _ & Hrepr' & Hfn' & Hfs'); try assumption.
    { lia. }
    { eapply pages_ok_le; [|exact Hpages]. lia. }
    pose proof Hgrow' as (Hshape' & Hlen' & Hmono').
    exists w'. split; [exact Hrun'|]. split; [exact Hg'|]. split.
    { replace (2 * (length cs' + with_raii.descendants_of cs'))%nat
        with (2 * Z.to_nat k + 2 * with_raii.descendants_of cs')%nat by lia.
      eapply grown_trans; eassumption. }
    assert (Hr_not_kid : Forall (fun kid => r <> in_region (kid_ptr kid)) kids).
    { apply Forall_forall. intros kid Hin ->. exact (Hkid_used kid Hin Hr). }
    split; [|split].
    + eapply repr_node with (ps := map kid_ptr kids)
        (n := {| children := {| items := b; size := Z.of_nat (length kids); max_size := k |};
                 node_id := id |});
        [left; reflexivity | | reflexivity | | | |].
      * rewrite Hfn'; [exact Hnode1 | eapply ref_used_grown; [exact Hgrow1 | exact Hr]
                      | exact Hr_not_kid].
      * cbn [children size]. rewrite length_map. reflexivity.
      * rewrite length_map. lia.
      * intros i p Hi. apply map_lookup_Some in Hi as (kid & Hi & ->).
        unfold slot_addr, sizeof_ptr. cbn [children items].
        destruct (Hroot_slots i kid Hi) as [Hq Hs]. split; [left; exact Hq|].
        rewrite Hfs'; [exact Hs | apply Hmono1, Hblock, Hq|].
        apply Forall_forall. intros kid' Hin Hqk.
        apply (Hkid_block kid' _ Hin Hqk). apply Hblock, Hq.
      * intros i p c Hp Hc. apply map_lookup_Some in Hp as (kid & Hi & ->).
        eapply repr_weaken; [exact (Hrepr' i kid c Hi Hc) | |]; intros; right; assumption.
    + intros r' Hr' Hne.
      rewrite Hfn'; [apply Hfn1; assumption | eapply ref_used_grown; [exact Hgrow1 | exact Hr']|].
      apply Forall_forall. intros kid Hin ->.
      exact (Hkid_used kid Hin Hr').
    + intros q Hq Hout.
      rewrite Hfs'; [apply Hfs1; lia | apply Hmono1, Hq|].
      apply Forall_forall. intros kid Hin Hqk.
      exact (Hkid_block kid q Hin Hqk Hq).
Qed.
End RegionSimulation.

Section RaiiHeight.
Import with_raii.
Variable k : Z.
Hypothesis k_nonneg : 0 <= k.

Lemma for_each_mut_Forall {A S : Type} (P Q : A -> Prop)
    (body : A -> S -> Outcome (A * S)) :
  (forall x s y s', P x -> body x s = Ok (y, s') -> Q y) ->
  forall xs s ys s', Forall P xs -> for_each_mut xs body s = Ok (ys, s') -> Forall Q ys.
Proof.
  intros Hbody. induction xs as [|x xs IH]; intros s ys s' HP Hrun.
  - injection Hrun as <- _. constructor.
  - apply for_each_mut_cons in Hrun as (y & s1 & ys' & Hy & Hrest & ->).
    inversion HP; subst. constructor; [eapply Hbody | eapply IH]; eassumption.
Qed.

Lemma height_unfold cs id :
  height (mkNode cs id) = S (fold_right (fun c h => Nat.max (height c) h) O cs).
Proof. reflexivity. Qed.

Lemma height_bound cs id n :
  Forall (fun c => (height c <= n)%nat) cs -> (height (mkNode cs id) <= S n)%nat.
Proof.
  intros H. rewrite height_unfold. apply le_n_S.
  induction H as [|c cs Hc _ IH]; cbn [fold_right]; lia.
Qed.

(** Every level of the tree has used up one unit of fuel. *)
Lemma raii_build_subtree_height fuel : forall l node g t g',
  children node = [] ->
  build_subtree k fuel tt node l g = Ok (t, g') -> (height t <= S fuel)%nat.
Proof.
  induction fuel as [|fuel IH]; intros l node g t g' Hleaf Hrun; [discriminate|].
  cbn [build_subtree] in Hrun.
  destruct (raii_add_children k k_nonneg (Z.to_nat k) node g)
    as (leaves & g1 & Hloop & _ & Hleaves & _).
  rewrite Hloop, bind_Ok_l, Hleaf in Hrun. cbn [app children node_id] in Hrun.
  destruct (wrap_int (l - 1) <=? 0).
  - injection Hrun as <- _. apply height_bound.
    eapply Forall_impl; [exact Hleaves|].
    intros [cc ci] Hc. simpl in Hc. subst cc. cbn. lia.
  - apply bind_Ok in Hrun as ([cs' g2] & Hrest & Hrun). injection Hrun as <- _.
    apply height_bound.
    eapply (for_each_mut_Forall (fun c => children c = [])); [|exact Hleaves | exact Hrest].
    intros c s c' s' Hc Hbody. simpl in Hbody. exact (IH _ _ _ _ _ Hc Hbody).
Qed.
End RaiiHeight.

Section RegionTest.
Import without_raii.
Variable page_addr : nat -> Z.
Variable k : Z.
Hypothesis k_range : 0 <= k <= 512.

Lemma new_World_shape : Allocator_shape page_addr (allocator new_World).
Proof. split; [reflexivity | left; reflexivity]. Qed.

(** The whole build and the walk, in the region and on owned nodes. *)
Lemma region_run_simulated fuel d t g :
  with_raii.build_tree k d fuel tt fresh_stat = Ok (t, g) ->
  pages_ok page_addr (1 + 2 * with_raii.descendants t) ->
  exists w,
    build_tree page_addr k d (S fuel) new_World = Ok w /\
    g_stat w = g /\
    repr (fun _ => True) (fun _ => True) w stack_root t /\
    traverse (S fuel) w stack_root = Ok (with_raii.traverse t) /\
    (length (pages (allocator w)) <= 1 + 2 * with_raii.descendants t)%nat.
Proof.
  intros Hraii Hpages. unfold with_raii.build_tree in Hraii.
  rewrite (raii_new_Node k ltac:(lia)), bind_Ok_l in Hraii.
  destruct fuel as [|f]; [discriminate|].
  destruct (new_Node_total page_addr k k_range f new_World new_World_shape)
    as (b & a1 & Hroot & Hgrow1 & Hfresh1).
  { eapply pages_ok_le; [|exact Hpages]. simpl. lia. }
  pose proof Hgrow1 as (Hshape1 & Hlen1 & _). simpl in Hlen1.
  unfold build_tree. rewrite Hroot, bind_Ok_l.
  cbn [g_stat allocator node_at slot_at new_World].
  match goal with |- context [build_subtree _ _ _ _ _ ?w] => set (w1 := w) end.
  destruct (build_subtree_simulated page_addr k k_range (S f) stack_root d w1 b 0 t g)
    as (w & Hrun & Hg & Hgrow & Hrepr & _ & _).
  - exact Hshape1.
  - apply lookup_insert_eq.
  - exact I.
  - intros q Hq. exact (proj1 (Hfresh1 q Hq)).
  - exact Hraii.
  - eapply pages_ok_le; [|exact Hpages]. cbn [allocator w1]. lia.
  - exists w. split; [exact Hrun|]. split; [exact Hg|].
    assert (Hrepr' : repr (fun _ => True) (fun _ => True) w stack_root t).
    { eapply repr_weaken; [exact Hrepr | |]; auto. }
    split; [exact Hrepr'|]. split.
    + eapply traverse_repr; [exact Hrepr'|].
      pose proof (raii_build_subtree_height k ltac:(lia) (S f) d (with_raii.mkNode [] 0)
                    _ t g eq_refl Hraii). lia.
    + destruct Hgrow as (_ & Hlen & _). cbn [allocator w1] in Hlen. lia.
Qed.
End RegionTest.

(** * The claims *)

Section Claims.
Import without_raii.

Lemma example_pages_ok n : Z.of_nat n <= 2 ^ 40 -> pages_ok example_pages n.
Proof.
  intros Hn i Hi. unfold page_ok, example_pages, PAGE_SIZE.
  split; [lia|]. split; [lia|]. intros j Hj. left. lia.
Defined.

(** C5. Whatever calls of [allocate_block], each for at most 4096 bytes and
  with an alignment, a region has served: every block returned is a multiple
  of its alignment, lies inside one page of the region, and shares no byte
  with a block returned before it. *)
Theorem C5_blocks_aligned_in_page_apart (page_addr : nat -> Z) (a : Allocator) (bs : list Block) :
  served page_addr a bs ->
  pages_ok page_addr (length (pages a)) ->
  Forall (fun b => block_addr b mod block_alignment b = 0 /\
                   exists page, In page (pages a) /\ within_page page b) bs /\
  ForallOrdPairs (fun later earlier => ~ overlap later earlier) bs.
Proof.
  intros Hserved Hok.
  destruct (served_invariant page_addr a bs Hserved Hok) as (_ & Hall & Hpairs).
  split; [|exact Hpairs].
  eapply Forall_impl; [exact Hall|]. intros b (Hal & Hpage & _). split; assumption.
Qed.

Lemma C5_witness :
  Forall (fun b => block_addr b mod block_alignment b = 0 /\
                   exists page, In page [66560] /\ within_page page b)
         [ {| block_addr := 66592; block_size := 16; block_alignment := 16 |};
           {| block_addr := 66560; block_size := 24; block_alignment := 8 |} ] /\
  ForallOrdPairs (fun later earlier => ~ overlap later earlier)
         [ {| block_addr := 66592; block_size := 16; block_alignment := 16 |};
           {| block_addr := 66560; block_size := 24; block_alignment := 8 |} ].
Proof.
  apply (C5_blocks_aligned_in_page_apart example_pages
           {| pages := [66560]; active_page_first_free_byte := 66608;
              active_page_bytes_left := 65488 |}).
  - apply (served_call example_pages
             {| pages := [66560]; active_page_first_free_byte := 66584;
                active_page_bytes_left := 65512 |} _ 2%nat 16 16).
    + apply (served_call example_pages new_Allocator [] 2%nat 24 8).
      * apply served_fresh.
      * unfold MAX_SMALL_BLOCK_SIZE. lia.
      * exists 3. split; [lia | reflexivity].
      * reflexivity.
    + unfold MAX_SMALL_BLOCK_SIZE. lia.
    + exists 4. split; [lia | reflexivity].
    + reflexivity.
  - apply example_pages_ok. simpl. lia.
Defined.

(** C6. A request for more than 4096 bytes prints the diagnostic and
  terminates the process, whatever the state of the region, and returns no
  block; a request for at most 4096 bytes never ends that way. *)
Theorem C6_large_block_terminates (page_addr : nat -> Z) (fuel : nat) (a : Allocator)
    (size alignment : Z) :
  (MAX_SMALL_BLOCK_SIZE < size ->
   allocate_block page_addr (S fuel) a size alignment = Terminated too_large_diagnostic) /\
  (size <= MAX_SMALL_BLOCK_SIZE ->
   forall stderr, allocate_block page_addr fuel a size alignment <> Terminated stderr).
Proof.
  split.
  - intros Hlarge. rewrite allocate_block_unfold.
    destruct (Z.leb_spec size MAX_SMALL_BLOCK_SIZE); [lia | reflexivity].
  - intros Hsmall stderr. revert a.
    induction fuel as [|fuel' IH]; intros a; [discriminate|].
    rewrite allocate_block_unfold.
    destruct (Z.leb_spec size MAX_SMALL_BLOCK_SIZE); [|lia].
    destruct (std_align _ _ _ _) as [[ptr space]|]; [discriminate | apply IH].
Qed.

Lemma C6_witness :
  allocate_block example_pages 1 new_Allocator 4097 8 = Terminated too_large_diagnostic /\
  allocate_block example_pages 1 new_Allocator 4096 8 <> Terminated too_large_diagnostic.
Proof.
  split.
  - apply (proj1 (C6_large_block_terminates example_pages 0 new_Allocator 4097 8)).
    unfold MAX_SMALL_BLOCK_SIZE. lia.
  - apply (proj2 (C6_large_block_terminates example_pages 1 new_Allocator 4096 8)).
    unfold MAX_SMALL_BLOCK_SIZE. lia.
Defined.

(** C7, as amended. A request for at most 4096 bytes whose alignment is at
  most [PAGE_SIZE - MAX_SMALL_BLOCK_SIZE] returns a block, and it does so in
  the call itself or in its first retry: two invocations are enough, and at
  most one page is created. *)
Theorem C7_one_retry_is_enough (page_addr : nat -> Z) (fuel : nat) (a : Allocator)
    (size alignment : Z) :
  Allocator_shape page_addr a ->
  pages_ok page_addr (S (length (pages a))) ->
  0 <= size <= MAX_SMALL_BLOCK_SIZE ->
  is_alignment alignment ->
  alignment <= PAGE_SIZE - MAX_SMALL_BLOCK_SIZE ->
  exists p a', allocate_block page_addr (S (S fuel)) a size alignment = Ok (p, a') /\
               (length (pages a') <= S (length (pages a)))%nat.
Proof. apply allocate_block_returns. Qed.

Lemma C7_witness :
  exists p a', allocate_block example_pages 2 new_Allocator 4096 32768 = Ok (p, a') /\
               (length (pages a') <= 1)%nat.
Proof.
  apply (C7_one_retry_is_enough example_pages 0 new_Allocator 4096 32768).
  - split; [reflexivity | left; reflexivity].
  - apply example_pages_ok. simpl. lia.
  - unfold MAX_SMALL_BLOCK_SIZE. lia.
  - exists 15. split; [lia | reflexivity].
  - unfold PAGE_SIZE, MAX_SMALL_BLOCK_SIZE. lia.
Defined.

(** The claim C7 as stated fails: with the alignment 65536 and pages that
  are not placed at multiples of it, a request for 4096 bytes is still not
  served after one retry, nor after fifteen. *)
Lemma C7_counterexample :
  is_alignment 65536 /\ pages_ok example_pages 16 /\
  allocate_block example_pages 2 new_Allocator 4096 65536 = OutOfFuel /\
  allocate_block example_pages 16 new_Allocator 4096 65536 = OutOfFuel.
Proof.
  split; [exists 16; split; [lia | reflexivity]|].
  split; [apply example_pages_ok; simpl; lia|].
  split; vm_compute; reflexivity.
Qed.

(** ** The fixed-capacity vector *)

Lemma iterate_from (slots : gmap Z Z) (b : Z) : forall (ys : list Z) (j : nat) (acc : list Z),
  (forall i y, ys !! i = Some y -> slots !! (b + sizeof_ptr * Z.of_nat (j + i)) = Some y) ->
  for_each (map (fun i => b + sizeof_ptr * Z.of_nat i) (seq j (length ys)))
           (fun q acc => x ← from_option (slots !! q); Ok (acc ++ [x])) acc
  = Ok (acc ++ ys).
Proof.
  induction ys as [|y ys IH]; intros j acc Hslots.
  - cbn [length seq map for_each]. rewrite app_nil_r. reflexivity.
  - cbn [length seq map for_each].
    pose proof (Hslots 0%nat y eq_refl) as Hy. rewrite Nat.add_0_r in Hy.
    rewrite Hy. cbn [from_option]. rewrite !bind_Ok_l.
    rewrite IH.
    + rewrite <- app_assoc. reflexivity.
    + intros i y' Hi. replace (S j + i)%nat with (j + S i)%nat by lia. apply Hslots. exact Hi.
Qed.

Lemma iterate_spec (v : Vector) (slots : gmap Z Z) (ys : list Z) :
  size v = Z.of_nat (length ys) ->
  (forall i y, ys !! i = Some y -> slots !! slot_addr v i = Some y) ->
  iterate v slots = Ok ys.
Proof.
  intros Hsize Hslots. unfold iterate.
  rewrite (slot_addrs_repr v (length ys) Hsize).
  apply (iterate_from slots (items v) ys 0%nat []). exact Hslots.
Qed.

Lemma push_back_all_cons (v : Vector) (x : Z) (xs : list Z) (slots : gmap Z Z) :
  push_back_all v (x :: xs) slots
  = push_back v x slots ≫= (fun '(v', slots') => push_back_all v' xs slots').
Proof.
  unfold push_back_all. cbn [for_each].
  destruct (push_back v x slots) as [[v' slots']| | | | |]; reflexivity.
Qed.

Lemma push_back_room (v : Vector) (x : Z) (slots : gmap Z Z) :
  0 <= size v < max_size v -> max_size v < 2 ^ 31 ->
  push_back v x slots
  = Ok ({| items := items v; size := size v + 1; max_size := max_size v |},
        <[items v + sizeof_ptr * size v := x]> slots).
Proof.
  intros Hroom Hint. unfold push_back.
  destruct (Z.ltb_spec (size v) (max_size v)); [|lia].
  rewrite wrap_int_small by (unfold int_range; lia). reflexivity.
Qed.

Lemma push_back_all_spec (b m : Z) : forall (xs ys : list Z) (v : Vector) (slots : gmap Z Z),
  items v = b -> max_size v = m -> size v = Z.of_nat (length ys) ->
  Z.of_nat (length ys + length xs) <= m -> m < 2 ^ 31 ->
  (forall i y, ys !! i = Some y -> slots !! (b + sizeof_ptr * Z.of_nat i) = Some y) ->
  exists v' slots',
    push_back_all v xs slots = Ok (v', slots') /\
    items v' = b /\ max_size v' = m /\ size v' = Z.of_nat (length (ys ++ xs)) /\
    (forall i y, (ys ++ xs) !! i = Some y -> slots' !! (b + sizeof_ptr * Z.of_nat i) = Some y) /\
    (forall q, ~ (b <= q < b + sizeof_ptr * m) -> slots' !! q = slots !! q).
Proof.
  induction xs as [|x xs IH]; intros ys v slots Hb Hm Hsize Hroom Hint Hslots.
  - exists v, slots. rewrite app_nil_r. repeat split; auto.
  - rewrite push_back_all_cons, push_back_room
      by (rewrite ?Hm, ?Hsize; cbn [length] in Hroom; lia).
    rewrite bind_Ok_l, Hm, Hsize, Hb.
    destruct (IH (ys ++ [x])
                {| items := b; size := Z.of_nat (length ys) + 1; max_size := m |}
                (<[b + sizeof_ptr * Z.of_nat (length ys) := x]> slots))
      as (v' & slots' & Hrun & Hb' & Hm' & Hsize' & Hslots' & Hframe);
      try reflexivity; try assumption.
    + cbn [size]. rewrite length_app. cbn [length]. lia.
    + rewrite length_app. cbn [length] in *. lia.
    + intros i y Hi. apply lookup_app_Some in Hi as [Hi | [Hge Hi]].
      * pose proof (lookup_lt_Some _ _ _ Hi).
        rewrite lookup_insert_ne by (unfold sizeof_ptr; lia). apply Hslots, Hi.
      * destruct (i - length ys)%nat as [|n] eqn:Hn; [|destruct n; discriminate].
        injection Hi as <-. replace i with (length ys) by lia. apply lookup_insert_eq.
    + exists v', slots'. rewrite <- app_assoc in Hsize', Hslots'.
      split; [exact Hrun|]. split; [exact Hb'|]. split; [exact Hm'|].
      split; [exact Hsize'|]. split; [exact Hslots'|].
      intros q Hq. rewrite Hframe by exact Hq.
      apply lookup_insert_ne. cbn [length] in Hroom. unfold sizeof_ptr in *. lia.
Qed.

(** C8. After the elements [xs], no more than [max_size] of them, have been
  pushed into a vector as its constructor leaves it, the iteration from
  [begin()] to [end()] yields exactly [xs] in the order of the pushes; the
  address of the backing block and the capacity are what they were; memory
  outside the block is untouched; and an iteration started again yields the
  same sequence as long as the block holds the same values. *)
Theorem C8_iteration_in_push_order (b m : Z) (xs : list Z) (slots : gmap Z Z) :
  Z.of_nat (length xs) <= m -> m < 2 ^ 31 ->
  exists v slots',
    push_back_all {| items := b; size := 0; max_size := m |} xs slots = Ok (v, slots') /\
    iterate v slots' = Ok xs /\
    items v = b /\ max_size v = m /\ size v = Z.of_nat (length xs) /\
    (forall q, ~ in_slots v q -> slots' !! q = slots !! q) /\
    (forall slots'', (forall q, in_slots v q -> slots'' !! q = slots' !! q) ->
                     iterate v slots'' = Ok xs).
Proof.
  intros Hroom Hint.
  destruct (push_back_all_spec b m xs [] {| items := b; size := 0; max_size := m |} slots)
    as (v & slots' & Hrun & Hb & Hm & Hsize & Hslots & Hframe);
    try reflexivity; try assumption; [intros i y Hi; discriminate|].
  cbn [app] in Hsize, Hslots.
  exists v, slots'. split; [exact Hrun|].
  assert (Haddr : forall i y, xs !! i = Some y ->
            in_slots v (slot_addr v i) /\ slots' !! slot_addr v i = Some y).
  { intros i y Hi. pose proof (lookup_lt_Some _ _ _ Hi).
    unfold in_slots, slot_addr. rewrite Hb, Hm. split; [unfold sizeof_ptr; lia|].
    apply Hslots, Hi. }
  split; [apply iterate_spec; [exact Hsize | intros i y Hi; apply (Haddr i y Hi)]|].
  split; [exact Hb|]. split; [exact Hm|]. split; [exact Hsize|]. split.
  - intros q Hq. apply Hframe. unfold in_slots in Hq. rewrite Hb, Hm in Hq. exact Hq.
  - intros slots'' Hsame. apply iterate_spec; [exact Hsize|].
    intros i y Hi. destruct (Haddr i y Hi) as [Hin Hs]. rewrite Hsame by exact Hin. exact Hs.
Qed.

Lemma C8_witness :
  exists v slots',
    push_back_all {| items := 66560; size := 0; max_size := 3 |} [66600; 66640] ∅
      = Ok (v, slots') /\
    iterate v slots' = Ok [66600; 66640] /\
    items v = 66560 /\ max_size v = 3 /\ size v = 2 /\
    (forall q, ~ in_slots v q -> slots' !! q = (∅ : gmap Z Z) !! q) /\
    (forall slots'', (forall q, in_slots v q -> slots'' !! q = slots' !! q) ->
                     iterate v slots'' = Ok [66600; 66640]).
Proof.
  apply (C8_iteration_in_push_order 66560 3 [66600; 66640] ∅); simpl; lia.
Defined.

(** C9. A push into a vector that already holds [max_size] elements fails
  the assertion [size < max_size], and nothing is written; a push that is
  carried out writes one slot, which lies inside the backing block, and
  leaves the block's address and the capacity as they were. *)
Theorem C9_push_stays_inside_the_block (v : Vector) (x : Z) (slots : gmap Z Z) :
  0 <= size v ->
  (size v = max_size v -> push_back v x slots = AssertionFailed "size < max_size") /\
  (forall v' slots', push_back v x slots = Ok (v', slots') ->
     exists q, in_slots v q /\ q + sizeof_ptr <= items v + sizeof_ptr * max_size v /\
               slots' = <[q := x]> slots /\
               items v' = items v /\ max_size v' = max_size v).
Proof.
  intros Hsize. unfold push_back. split.
  - intros Hfull. destruct (Z.ltb_spec (size v) (max_size v)); [lia | reflexivity].
  - intros v' slots' Hpush.
    destruct (Z.ltb_spec (size v) (max_size v)) as [Hroom|]; [|discriminate].
    injection Hpush as <- <-. exists (items v + sizeof_ptr * size v).
    unfold in_slots, sizeof_ptr. cbn [items max_size]. repeat split; lia.
Qed.

Lemma C9_witness :
  push_back {| items := 66560; size := 2; max_size := 2 |} 66600 ∅
  = AssertionFailed "size < max_size".
Proof.
  apply (proj1 (C9_push_stays_inside_the_block
                  {| items := 66560; size := 2; max_size := 2 |} 66600 ∅ ltac:(simpl; lia))).
  reflexivity.
Defined.

(** ** The checksum *)

Lemma sum_mod_congr {A : Type} (f g : A -> Z) (cs : list A) : forall a,
  Forall (fun c => f c mod CHECKSUM_MODULUS = g c mod CHECKSUM_MODULUS) cs ->
  (a + sum_Z (map f cs)) mod CHECKSUM_MODULUS = (a + sum_Z (map g cs)) mod CHECKSUM_MODULUS.
Proof.
  induction cs as [|c cs IH]; intros a Hall; [reflexivity|].
  inversion Hall as [|? ? Hc Hcs]; subst. cbn [map sum_Z fold_right].
  fold (sum_Z (map f cs)). fold (sum_Z (map g cs)).
  replace (a + (f c + sum_Z (map f cs))) with (f c + (a + sum_Z (map f cs))) by lia.
  replace (a + (g c + sum_Z (map g cs))) with (g c + (a + sum_Z (map g cs))) by lia.
  rewrite Zplus_mod, Hc, (IH a Hcs), <- Zplus_mod. reflexivity.
Qed.

Lemma sum_flat_ids (cs : list with_raii.Node) :
  sum_Z (flat_map with_raii.node_ids cs)
  = sum_Z (map (fun c => sum_Z (with_raii.node_ids c)) cs).
Proof.
  induction cs as [|c cs IH]; [reflexivity|].
  cbn [flat_map map sum_Z fold_right]. fold (sum_Z (map (fun c => sum_Z (with_raii.node_ids c)) cs)).
  rewrite sum_Z_app, IH. reflexivity.
Qed.

Lemma sum_ids_unfold cs id :
  sum_Z (with_raii.node_ids (with_raii.mkNode cs id))
  = id + sum_Z (map (fun c => sum_Z (with_raii.node_ids c)) cs).
Proof.
  cbn [with_raii.node_ids with_raii.children with_raii.node_id sum_Z fold_right].
  fold (sum_Z (flat_map with_raii.node_ids cs)). rewrite sum_flat_ids. reflexivity.
Qed.

Lemma spec_checksum_sum (t : with_raii.Node) :
  with_raii.spec_checksum t = sum_Z (with_raii.node_ids t) mod CHECKSUM_MODULUS.
Proof.
  induction t as [cs id IH] using Node_forall_ind.
  rewrite sum_ids_unfold.
  change (with_raii.spec_checksum (with_raii.mkNode cs id))
    with ((id + sum_Z (map with_raii.spec_checksum cs)) mod CHECKSUM_MODULUS).
  apply sum_mod_congr. eapply Forall_impl; [exact IH|].
  intros c Hc. cbn beta. rewrite Hc. apply Zmod_mod.
Qed.

(** Without overflow the walk of a node with children returns the sum of
  the identifiers under it, reduced; that of any node is congruent to it. *)
Lemma traverse_congruent (t : with_raii.Node) :
  Forall (fun i => 0 <= i < 2 ^ 30) (with_raii.node_ids t) ->
  (with_raii.children t <> [] ->
   with_raii.traverse t = sum_Z (with_raii.node_ids t) mod CHECKSUM_MODULUS) /\
  with_raii.traverse t mod CHECKSUM_MODULUS
  = sum_Z (with_raii.node_ids t) mod CHECKSUM_MODULUS.
Proof.
  induction t as [cs id IH] using Node_forall_ind. intros Hids.
  cbn [with_raii.node_ids with_raii.children with_raii.node_id] in Hids.
  inversion Hids as [|? ? Hid Hrest]; subst.
  apply flat_ids_forall in Hrest.
  assert (Hnonleaf : cs <> [] ->
            with_raii.traverse (with_raii.mkNode cs id)
            = sum_Z (with_raii.node_ids (with_raii.mkNode cs id)) mod CHECKSUM_MODULUS).
  { intros Hne. rewrite traverse_unfold, sum_ids_unfold.
    rewrite checksum_loop_sum; [|exact Hid | | exact Hne].
    - apply sum_mod_congr.
      pose proof (proj2 (Forall_and _ _) (conj IH Hrest)) as Hboth.
      eapply Forall_impl; [exact Hboth|].
      intros c [Hc Hbounded]. exact (proj2 (Hc Hbounded)).
    - eapply Forall_impl; [exact Hrest|]. intros c Hc. apply traverse_bounded, Hc. }
  split; [exact Hnonleaf|].
  destruct cs as [|c cs].
  - rewrite sum_ids_unfold. cbn [map sum_Z fold_right]. rewrite Z.add_0_r. reflexivity.
  - rewrite Hnonleaf by discriminate. apply Zmod_mod.
Qed.

(** C3, as amended. On a tree whose identifiers are non-negative and below
  [2^30] (so that no [int] addition overflows), [traverse] returns the
  checksum of the specification at every node that has a child, and at every
  node whose own identifier is below 43112609; at a node without children it
  returns the node's identifier as it is, not reduced.  It reads the
  identifiers depth first, a node before its children and the children from
  left to right.  The walk in the region returns the same value, and returns
  nothing but that value. *)
Theorem C3_traverse_follows_the_formula (t : with_raii.Node) :
  Forall (fun i => 0 <= i < 2 ^ 30) (with_raii.node_ids t) ->
  (with_raii.children t <> [] \/ with_raii.node_id t < CHECKSUM_MODULUS ->
   with_raii.traverse t = with_raii.spec_checksum t) /\
  (with_raii.children t = [] -> with_raii.traverse t = with_raii.node_id t) /\
  with_raii.traverse_visiting t = (with_raii.traverse t, with_raii.node_ids t) /\
  (forall P Q w r, repr P Q w r t ->
     traverse (with_raii.height t) w r = Ok (with_raii.traverse t)).
Proof.
  intros Hids. destruct (traverse_congruent t Hids) as [Hnonleaf _].
  split; [|split; [|split]].
  - rewrite spec_checksum_sum. intros [Hne | Hsmall]; [exact (Hnonleaf Hne)|].
    destruct t as [[|c cs] id]; [|apply Hnonleaf; discriminate].
    cbn in *. inversion Hids; subst. rewrite Z.add_0_r. symmetry. apply Z.mod_small. lia.
  - destruct t as [cs id]. cbn. intros ->. reflexivity.
  - apply traverse_visiting_spec.
  - intros P Q w r Hrepr. eapply traverse_repr; [exact Hrepr | lia].
Qed.

Lemma C3_witness :
  (with_raii.children with_raii.scenario_tree <> [] \/
   with_raii.node_id with_raii.scenario_tree < CHECKSUM_MODULUS ->
   with_raii.traverse with_raii.scenario_tree = with_raii.spec_checksum with_raii.scenario_tree) /\
  (with_raii.children with_raii.scenario_tree = [] ->
   with_raii.traverse with_raii.scenario_tree = with_raii.node_id with_raii.scenario_tree) /\
  with_raii.traverse_visiting with_raii.scenario_tree
  = (with_raii.traverse with_raii.scenario_tree, with_raii.node_ids with_raii.scenario_tree) /\
  (forall P Q w r, repr P Q w r with_raii.scenario_tree ->
     traverse (with_raii.height with_raii.scenario_tree) w r
     = Ok (with_raii.traverse with_raii.scenario_tree)).
Proof.
  apply (C3_traverse_follows_the_formula with_raii.scenario_tree).
  cbn. repeat constructor; lia.
Defined.

(** The claim C3 as stated fails at a node without children whose
  identifier is not below the modulus: [traverse] returns the identifier, the
  formula its remainder. *)
Lemma C3_counterexample :
  with_raii.traverse (with_raii.mkNode [] 43112609) = 43112609 /\
  with_raii.spec_checksum (with_raii.mkNode [] 43112609) = 0.
Proof. split; reflexivity. Qed.

(** C10. On a tree whose identifiers are non-negative and below 43112609,
  [traverse] returns the sum of all identifiers modulo 43112609, so two trees
  with the same identifiers, wherever they sit, have the same checksum; the
  walk in the region returns that sum too. *)
Theorem C10_checksum_is_the_sum_of_ids (t : with_raii.Node) :
  Forall (fun i => 0 <= i < CHECKSUM_MODULUS) (with_raii.node_ids t) ->
  with_raii.traverse t = sum_Z (with_raii.node_ids t) mod CHECKSUM_MODULUS /\
  (forall t', Permutation (with_raii.node_ids t) (with_raii.node_ids t') ->
              with_raii.traverse t' = with_raii.traverse t) /\
  (forall P Q w r, repr P Q w r t ->
     traverse (with_raii.height t) w r
     = Ok (sum_Z (with_raii.node_ids t) mod CHECKSUM_MODULUS)).
Proof.
  intros Hids. pose proof (traverse_sum t Hids) as Hsum.
  split; [exact Hsum|]. split.
  - intros t' Hperm. rewrite Hsum, traverse_sum.
    + f_equal. symmetry. apply sum_Z_Permutation, Hperm.
    + eapply Permutation_Forall; [exact Hperm | exact Hids].
  - intros P Q w r Hrepr. rewrite <- Hsum. eapply traverse_repr; [exact Hrepr | lia].
Qed.

Lemma C10_witness :
  with_raii.traverse with_raii.scenario_tree
  = sum_Z (with_raii.node_ids with_raii.scenario_tree) mod CHECKSUM_MODULUS /\
  (forall t', Permutation (with_raii.node_ids with_raii.scenario_tree) (with_raii.node_ids t') ->
              with_raii.traverse t' = with_raii.traverse with_raii.scenario_tree) /\
  (forall P Q w r, repr P Q w r with_raii.scenario_tree ->
     traverse (with_raii.height with_raii.scenario_tree) w r
     = Ok (sum_Z (with_raii.node_ids with_raii.scenario_tree) mod CHECKSUM_MODULUS)).
Proof.
  apply (C10_checksum_is_the_sum_of_ids with_raii.scenario_tree).
  cbn. unfold CHECKSUM_MODULUS. repeat constructor; lia.
Defined.

(** ** The two strategies *)

Lemma node_count_descendants (t : with_raii.Node) :
  with_raii.node_count t = Z.of_nat (S (with_raii.descendants t)).
Proof. destruct t as [cs id]. reflexivity. Qed.

Lemma pages_budget (page_addr : nat -> Z) (t : with_raii.Node) (n : Z) :
  with_raii.node_count t = n ->
  pages_ok page_addr (Z.to_nat (2 * n)) ->
  pages_ok page_addr (1 + 2 * with_raii.descendants t).
Proof.
  intros Hcount Hok. rewrite node_count_descendants in Hcount.
  eapply pages_ok_le; [|exact Hok]. lia.
Qed.

(** A vector for more than 512 children is more than the allocator serves:
  the region build stops in the constructor of the root. *)
Lemma region_build_too_wide (page_addr : nat -> Z) (k d : Z) (fuel : nat) :
  512 < k < 2 ^ 28 ->
  build_tree page_addr k d (S fuel) new_World = Terminated too_large_diagnostic.
Proof.
  intros Hk. unfold build_tree, new_Node, new_Vector.
  change (aligned_item_size sizeof_ptr alignof_ptr) with 8.
  rewrite wrap_int_small by (unfold int_range; lia).
  unfold to_size_t. rewrite Z.mod_small by lia.
  rewrite allocate_block_unfold.
  destruct (Z.leb_spec (k * 8) MAX_SMALL_BLOCK_SIZE) as [Hle|]; [|reflexivity].
  unfold MAX_SMALL_BLOCK_SIZE in Hle. lia.
Qed.

(** C1, as amended. For a number of children from 0 to 512 (a vector of
  child pointers then fits a small block) and a depth that an [int] holds,
  both strategies return, and they return the same checksum and the same
  count of nodes. *)
Theorem C1_region_agrees_with_raii (page_addr : nat -> Z) (k d : Z) (fuel : nat) :
  0 <= k <= 512 -> - 2 ^ 31 < d < 2 ^ 31 -> (levels d <= fuel)%nat ->
  pages_ok page_addr (Z.to_nat (2 * sum_of_powers k (levels d))) ->
  exists checksum stat,
    with_raii.test k d fuel = Ok (checksum, stat) /\
    test page_addr k d (S fuel) = Ok (checksum, stat).
Proof.
  intros Hk Hd Hfuel Hpages.
  destruct (raii_build_tree_returns k ltac:(lia) fuel d Hd Hfuel) as (t & g & Hraii & Hcount & _).
  destruct (region_run_simulated page_addr k Hk fuel d t g Hraii)
    as (w & Hbuild & Hg & _ & Hwalk & _).
  { eapply pages_budget; eassumption. }
  exists (with_raii.traverse t), g. split.
  - unfold with_raii.test. rewrite Hraii. reflexivity.
  - unfold test. rewrite Hbuild, bind_Ok_l, Hwalk, bind_Ok_l, Hg. reflexivity.
Qed.

Lemma C1_witness :
  exists checksum stat,
    with_raii.test 2 2 2 = Ok (checksum, stat) /\
    test example_pages 2 2 3 = Ok (checksum, stat).
Proof.
  apply (C1_region_agrees_with_raii example_pages 2 2 2).
  - lia.
  - lia.
  - unfold levels. simpl. lia.
  - apply example_pages_ok. simpl. lia.
Defined.

(** The claim C1 as stated fails for 513 children: the owning build
  returns, the region build terminates the process. *)
Lemma C1_counterexample :
  with_raii.test 513 1 1 = Ok (131841, {| n_nodes_created := 514 |}) /\
  ~ (exists fuel result, test example_pages 513 1 fuel = Ok result).
Proof.
  split; [vm_compute; reflexivity|].
  intros (fuel & result & Hrun). destruct fuel as [|fuel]; [discriminate|].
  unfold test in Hrun. rewrite region_build_too_wide in Hrun by lia. discriminate.
Qed.

(** C2, as amended. For 1 to 512 children per node and a depth of at least
  1, when the count [1 + k + ... + k^d] fits an [int], each strategy builds
  the tree and its counter of created nodes ends at that count, which is also
  the number of nodes of the tree. *)
Theorem C2_full_tree_node_count (page_addr : nat -> Z) (k d : Z) (fuel : nat) :
  1 <= k <= 512 -> 1 <= d < 2 ^ 31 ->
  sum_of_powers k (Z.to_nat d) < 2 ^ 31 ->
  (Z.to_nat d <= fuel)%nat ->
  pages_ok page_addr (Z.to_nat (2 * sum_of_powers k (Z.to_nat d))) ->
  (exists t g, with_raii.build_tree k d fuel tt fresh_stat = Ok (t, g) /\
               n_nodes_created g = sum_of_powers k (Z.to_nat d) /\
               with_raii.node_count t = sum_of_powers k (Z.to_nat d)) /\
  (exists w t, build_tree page_addr k d (S fuel) new_World = Ok w /\
               n_nodes_created (g_stat w) = sum_of_powers k (Z.to_nat d) /\
               repr (fun _ => True) (fun _ => True) w stack_root t /\
               with_raii.node_count t = sum_of_powers k (Z.to_nat d)).
Proof.
  intros Hk Hd Hint Hfuel Hpages.
  assert (Hlevels : levels d = Z.to_nat d) by (unfold levels; lia).
  destruct (raii_build_tree_returns k ltac:(lia) fuel d ltac:(lia) ltac:(lia))
    as (t & g & Hraii & Hcount & Hstat).
  rewrite Hlevels in Hcount, Hstat.
  assert (Hg : n_nodes_created g = sum_of_powers k (Z.to_nat d)).
  { rewrite Hstat. apply wrap_int_small. unfold int_range.
    rewrite <- Hcount, node_count_descendants in *. lia. }
  destruct (region_run_simulated page_addr k ltac:(lia) fuel d t g Hraii)
    as (w & Hbuild & Hgw & Hrepr & _ & _).
  { eapply pages_budget; eassumption. }
  split.
  - exists t, g. split; [exact Hraii|]. split; [exact Hg | exact Hcount].
  - exists w, t. split; [exact Hbuild|]. split; [rewrite Hgw; exact Hg|].
    split; [exact Hrepr | exact Hcount].
Qed.

Lemma C2_witness :
  (exists t g, with_raii.build_tree 3 2 2 tt fresh_stat = Ok (t, g) /\
               n_nodes_created g = sum_of_powers 3 (Z.to_nat 2) /\
               with_raii.node_count t = sum_of_powers 3 (Z.to_nat 2)) /\
  (exists w t, build_tree example_pages 3 2 3 new_World = Ok w /\
               n_nodes_created (g_stat w) = sum_of_powers 3 (Z.to_nat 2) /\
               repr (fun _ => True) (fun _ => True) w stack_root t /\
               with_raii.node_count t = sum_of_powers 3 (Z.to_nat 2)).
Proof.
  apply (C2_full_tree_node_count example_pages 3 2 2).
  - lia.
  - lia.
  - simpl. lia.
  - simpl. lia.
  - apply example_pages_ok. simpl. lia.
Defined.

(** The claim C2 as stated fails for 513 children and depth 1: the count
  would be 514, but the region build creates no node and returns no tree. *)
Lemma C2_counterexample :
  sum_of_powers 513 1 = 514 /\
  ~ (exists fuel w, build_tree example_pages 513 1 fuel new_World = Ok w).
Proof.
  split; [reflexivity|].
  intros (fuel & w & Hrun). destruct fuel as [|fuel]; [discriminate|].
  rewrite region_build_too_wide in Hrun by lia. discriminate.
Qed.

(** The counter is an [int]: with 2 children and depth 31 the count
[2^32 - 1] does not fit, and the counter of the owning build, wrapped, ends
at [-1]. *)
Lemma counter_wraps_at_depth_31 :
  exists t g, with_raii.build_tree 2 31 31 tt fresh_stat = Ok (t, g) /\
              with_raii.node_count t = 2 ^ 32 - 1 /\ n_nodes_created g = -1.
Proof.
  destruct (raii_build_tree_returns 2 ltac:(lia) 31 31 ltac:(lia) ltac:(unfold levels; lia))
    as (t & g & Hrun & Hcount & Hstat).
  exists t, g. split; [exact Hrun|]. split; [rewrite Hcount | rewrite Hstat]; reflexivity.
Qed.

(** C4. With two children per node and depth 2, starting from a counter at
  0: seven nodes are created; the root is node 0, its children are 1 and 2,
  the children of 1 are 3 and 4 and those of 2 are 5 and 6; and the checksum
  is 21.  The same holds in the region, wherever its pages lie. *)
Theorem C4_two_children_two_levels (page_addr : nat -> Z) :
  pages_ok page_addr 14 ->
  with_raii.build_tree 2 2 2 tt fresh_stat
    = Ok (with_raii.scenario_tree, {| n_nodes_created := 7 |}) /\
  with_raii.node_count with_raii.scenario_tree = 7 /\
  with_raii.traverse with_raii.scenario_tree = 21 /\
  with_raii.test 2 2 2 = Ok (21, {| n_nodes_created := 7 |}) /\
  (exists w, build_tree page_addr 2 2 3 new_World = Ok w /\
             n_nodes_created (g_stat w) = 7 /\
             repr (fun _ => True) (fun _ => True) w stack_root with_raii.scenario_tree) /\
  test page_addr 2 2 3 = Ok (21, {| n_nodes_created := 7 |}).
Proof.
  intros Hpages.
  assert (Hraii : with_raii.build_tree 2 2 2 tt fresh_stat
                  = Ok (with_raii.scenario_tree, {| n_nodes_created := 7 |}))
    by reflexivity.
  destruct (region_run_simulated page_addr 2 ltac:(lia) 2 2 _ _ Hraii)
    as (w & Hbuild & Hg & Hrepr & Hwalk & _).
  { eapply pages_ok_le; [|exact Hpages]. cbn. lia. }
  split; [exact Hraii|]. split; [reflexivity|]. split; [reflexivity|].
  split; [reflexivity|]. split.
  - exists w. rewrite Hg. split; [exact Hbuild|]. split; [reflexivity | exact Hrepr].
  - unfold test. rewrite Hbuild, bind_Ok_l, Hwalk, bind_Ok_l, Hg. reflexivity.
Qed.

Lemma C4_witness :
  with_raii.build_tree 2 2 2 tt fresh_stat
    = Ok (with_raii.scenario_tree, {| n_nodes_created := 7 |}) /\
  with_raii.node_count with_raii.scenario_tree = 7 /\
  with_raii.traverse with_raii.scenario_tree = 21 /\
  with_raii.test 2 2 2 = Ok (21, {| n_nodes_created := 7 |}) /\
  (exists w, build_tree example_pages 2 2 3 new_World = Ok w /\
             n_nodes_created (g_stat w) = 7 /\
             repr (fun _ => True) (fun _ => True) w stack_root with_raii.scenario_tree) /\
  test example_pages 2 2 3 = Ok (21, {| n_nodes_created := 7 |}).
Proof.
  apply (C4_two_children_two_levels example_pages).
  apply example_pages_ok. simpl. lia.
Defined.
End Claims.

(** * Beyond the claims

    What else the code shows: the allocator call by call, the constructors
    at the edge of what they accept, the shape and the identifiers of the
    tree that is built, and [main]. *)

(** ** One call of [allocate_block] *)

Section AllocatorSteps.
Import without_raii.

Section Calls.
Variable page_addr : nat -> Z.

Lemma is_alignment_pos alignment : is_alignment alignment -> 0 < alignment.
Proof. intros (n & Hn & ->). apply Z.pow_pos_nonneg; lia. Qed.

(** The request fits behind the cursor: one bump, no page. *)
Lemma allocate_block_fits fuel a size alignment :
  active_page_first_free_byte a <> 0 ->
  0 <= active_page_first_free_byte a -> 0 <= active_page_bytes_left a ->
  active_page_first_free_byte a + active_page_bytes_left a < 2 ^ 64 ->
  0 <= size <= MAX_SMALL_BLOCK_SIZE -> is_alignment alignment ->
  align_up (active_page_first_free_byte a) alignment + size
    <= active_page_first_free_byte a + active_page_bytes_left a ->
  allocate_block page_addr (S fuel) a size alignment =
    Ok (align_up (active_page_first_free_byte a) alignment,
        {| pages := pages a;
           active_page_first_free_byte :=
             align_up (active_page_first_free_byte a) alignment + size;
           active_page_bytes_left :=
             active_page_first_free_byte a + active_page_bytes_left a
             - (align_up (active_page_first_free_byte a) alignment + size) |}).
Proof.
  intros Hact Hptr Hleft Hend Hsize Hal Hfit.
  rewrite allocate_block_unfold.
  destruct (Z.leb_spec size MAX_SMALL_BLOCK_SIZE) as [_|?]; [|lia].
  assert (Hsame : activated page_addr a = a).
  { unfold activated.
    destruct (Z.eqb_spec (active_page_first_free_byte a) 0); [contradiction | reflexivity]. }
  rewrite Hsame, std_align_spec by (try assumption; lia).
  destruct (align_up_spec (active_page_first_free_byte a) alignment (is_alignment_pos _ Hal))
    as [Hup _].
  set (p := align_up (active_page_first_free_byte a) alignment) in *.
  destruct (Z.leb_spec size (active_page_bytes_left a)) as [_|?]; [|lia].
  destruct (Z.leb_spec (p - active_page_first_free_byte a) (active_page_bytes_left a - size))
    as [_|?]; [|lia].
  cbn [andb]. unfold to_size_t. rewrite Z.mod_small by lia.
  do 3 f_equal. lia.
Qed.

(** The request does not fit behind the cursor: the page is given up. *)
Lemma allocate_block_no_room fuel a size alignment :
  active_page_first_free_byte a <> 0 ->
  0 <= active_page_first_free_byte a -> 0 <= active_page_bytes_left a ->
  active_page_first_free_byte a + active_page_bytes_left a < 2 ^ 64 ->
  0 <= size <= MAX_SMALL_BLOCK_SIZE -> is_alignment alignment ->
  active_page_first_free_byte a + active_page_bytes_left a
    < align_up (active_page_first_free_byte a) alignment + size ->
  allocate_block page_addr (S fuel) a size alignment =
    allocate_block page_addr fuel (retired a) size alignment.
Proof.
  intros Hact Hptr Hleft Hend Hsize Hal Hfit.
  rewrite allocate_block_unfold.
  destruct (Z.leb_spec size MAX_SMALL_BLOCK_SIZE) as [_|?]; [|lia].
  assert (Hsame : activated page_addr a = a).
  { unfold activated.
    destruct (Z.eqb_spec (active_page_first_free_byte a) 0); [contradiction | reflexivity]. }
  rewrite Hsame, std_align_spec by (try assumption; lia).
  destruct (Z.leb_spec size (active_page_bytes_left a)); [|reflexivity].
  destruct (Z.leb_spec (align_up (active_page_first_free_byte a) alignment
                        - active_page_first_free_byte a)
                       (active_page_bytes_left a - size)); [lia | reflexivity].
Qed.

(** Without an active page the first block of a new page is returned. *)
Lemma allocate_block_null_cursor fuel a size alignment :
  active_page_first_free_byte a = 0 ->
  page_ok page_addr (length (pages a)) ->
  0 <= size <= MAX_SMALL_BLOCK_SIZE -> is_alignment alignment ->
  alignment <= PAGE_SIZE - MAX_SMALL_BLOCK_SIZE ->
  allocate_block page_addr (S fuel) a size alignment =
    Ok (align_up (page_addr (length (pages a))) alignment,
        {| pages := pages a ++ [page_addr (length (pages a))];
           active_page_first_free_byte :=
             align_up (page_addr (length (pages a))) alignment + size;
           active_page_bytes_left :=
             page_addr (length (pages a)) + PAGE_SIZE
             - (align_up (page_addr (length (pages a))) alignment + size) |}).
Proof.
  intros Hnull (Hpos & Hfit & _) Hsize Hal Hsmall.
  rewrite allocate_block_unfold.
  destruct (Z.leb_spec size MAX_SMALL_BLOCK_SIZE) as [_|?]; [|lia].
  unfold activated. rewrite Hnull. simpl Z.eqb. cbv iota.
  cbn [pages active_page_first_free_byte active_page_bytes_left].
  set (pg := page_addr (length (pages a))) in *.
  destruct (align_up_spec pg alignment (is_alignment_pos _ Hal)) as [Hup _].
  unfold MAX_SMALL_BLOCK_SIZE, PAGE_SIZE in *.
  rewrite std_align_spec by (try assumption; lia).
  destruct (Z.leb_spec size 65536) as [_|?]; [|lia].
  destruct (Z.leb_spec (align_up pg alignment - pg) (65536 - size)) as [_|?]; [|lia].
  cbn [andb]. unfold to_size_t. rewrite Z.mod_small by lia.
  do 3 f_equal. lia.
Qed.

(** Where a returned block lies, and where the cursor is after it. *)
Lemma allocate_block_in_last_page fuel : forall a size alignment p a',
  allocate_block page_addr fuel a size alignment = Ok (p, a') ->
  Allocator_shape page_addr a -> pages_ok page_addr (length (pages a')) ->
  0 <= size -> is_alignment alignment ->
  exists n, length (pages a') = S n /\
            page_addr n <= p /\
            active_page_first_free_byte a' = p + size /\
            0 <= active_page_bytes_left a' /\
            p + size + active_page_bytes_left a' = page_addr n + PAGE_SIZE.
Proof.
  induction fuel as [|fuel IH]; intros a size alignment p a' Hrun Hshape Hok Hsize Hal;
    [discriminate|].
  rewrite allocate_block_unfold in Hrun.
  destruct (size <=? MAX_SMALL_BLOCK_SIZE); [|discriminate].
  assert (Hok1 : pages_ok page_addr (length (pages (activated page_addr a)))).
  { destruct (std_align _ _ _ _) as [[ptr space]|].
    - inversion Hrun; subst. exact Hok.
    - apply allocate_block_pages_length in Hrun. simpl in Hrun.
      eapply pages_ok_le; eassumption. }
  destruct (activated_shape page_addr a Hshape Hok1)
    as (Hnn & n & Hlen & Hpg & Hlo & Hleft & Hend).
  destruct (Hok1 n ltac:(lia)) as (Hpos & Hfit & _).
  rewrite std_align_spec in Hrun by (try assumption; lia).
  set (a1 := activated page_addr a) in *.
  destruct (align_up_spec (active_page_first_free_byte a1) alignment (is_alignment_pos _ Hal))
    as [Hup _].
  destruct ((size <=? active_page_bytes_left a1)
            && (align_up (active_page_first_free_byte a1) alignment
                - active_page_first_free_byte a1 <=? active_page_bytes_left a1 - size))
    eqn:Hfits.
  - apply andb_true_iff in Hfits as [Hf1 Hf2]. apply Z.leb_le in Hf1, Hf2.
    inversion Hrun; subst p a'; clear Hrun.
    cbn [pages active_page_first_free_byte active_page_bytes_left] in *.
    exists n. unfold to_size_t. rewrite Z.mod_small by lia.
    split; [exact Hlen|]. lia.
  - apply (IH _ _ _ _ _ Hrun); try assumption.
    apply retired_shape. rewrite Hlen. exact Hpg.
Qed.
End Calls.

(** X1. [allocate_block] is a bump allocator: when the active page has room
  for the padding and the block, the block is the first aligned address at or
  after the cursor, the cursor moves to the end of the block, the bytes left
  shrink by the padding and the size, and no page is created. *)
Theorem allocate_block_bumps_the_cursor (page_addr : nat -> Z) (fuel : nat) (a : Allocator) (size alignment : Z) :
  Allocator_shape page_addr a ->
  pages_ok page_addr (length (pages a)) ->
  active_page_first_free_byte a <> 0 ->
  0 <= size <= MAX_SMALL_BLOCK_SIZE -> is_alignment alignment ->
  align_up (active_page_first_free_byte a) alignment + size
    <= active_page_first_free_byte a + active_page_bytes_left a ->
  allocate_block page_addr (S fuel) a size alignment =
    Ok (align_up (active_page_first_free_byte a) alignment,
        {| pages := pages a;
           active_page_first_free_byte :=
             align_up (active_page_first_free_byte a) alignment + size;
           active_page_bytes_left :=
             active_page_first_free_byte a + active_page_bytes_left a
             - (align_up (active_page_first_free_byte a) alignment + size) |}).
Proof.
  intros [_ Hcur] Hok Hact Hsize Hal Hfit.
  destruct Hcur as [? | (n & Hn & Hlo & Hleft & Hend)]; [contradiction|].
  destruct (Hok n ltac:(lia)) as (Hpos & Hin & _).
  apply allocate_block_fits; try assumption; lia.
Qed.

Lemma allocate_block_bumps_the_cursor_witness :
  allocate_block example_pages 1
    {| pages := [66560]; active_page_first_free_byte := 66563;
       active_page_bytes_left := 65533 |} 24 8 =
    Ok (66568, {| pages := [66560]; active_page_first_free_byte := 66592;
                  active_page_bytes_left := 65504 |}).
Proof.
  apply (allocate_block_bumps_the_cursor example_pages 0
           {| pages := [66560]; active_page_first_free_byte := 66563;
              active_page_bytes_left := 65533 |} 24 8).
  - split; [reflexivity|]. right. exists 0%nat. vm_compute. intuition discriminate.
  - apply example_pages_ok. simpl. lia.
  - simpl. lia.
  - unfold MAX_SMALL_BLOCK_SIZE. lia.
  - exists 3. split; [lia | reflexivity].
  - vm_compute. discriminate.
Defined.

(** X2. When there is no active page, or the active page has no room for the
  padding and the block, what is left of that page is given up: exactly one
  page is created and the block is the first aligned address in it (for an
  alignment of at most 61440, so that a new page always has room). *)
Theorem allocate_block_opens_a_page (page_addr : nat -> Z) (fuel : nat) (a : Allocator) (size alignment : Z) :
  Allocator_shape page_addr a ->
  pages_ok page_addr (S (length (pages a))) ->
  0 <= size <= MAX_SMALL_BLOCK_SIZE -> is_alignment alignment ->
  alignment <= PAGE_SIZE - MAX_SMALL_BLOCK_SIZE ->
  active_page_first_free_byte a = 0 \/
  active_page_first_free_byte a + active_page_bytes_left a
    < align_up (active_page_first_free_byte a) alignment + size ->
  allocate_block page_addr (S (S fuel)) a size alignment =
    Ok (align_up (page_addr (length (pages a))) alignment,
        {| pages := pages a ++ [page_addr (length (pages a))];
           active_page_first_free_byte :=
             align_up (page_addr (length (pages a))) alignment + size;
           active_page_bytes_left :=
             page_addr (length (pages a)) + PAGE_SIZE
             - (align_up (page_addr (length (pages a))) alignment + size) |}).
Proof.
  intros [_ Hcur] Hok Hsize Hal Hsmall Hcase.
  destruct (Z.eq_dec (active_page_first_free_byte a) 0) as [Hnull | Hact].
  { apply allocate_block_null_cursor; try assumption. apply Hok. lia. }
  destruct Hcase as [? | Hfull]; [contradiction|].
  destruct Hcur as [? | (n & Hn & Hlo & Hleft & Hend)]; [contradiction|].
  destruct (Hok n ltac:(lia)) as (Hpos & Hin & _).
  rewrite allocate_block_no_room by (try assumption; lia).
  apply (allocate_block_null_cursor page_addr fuel (retired a)); try assumption; [reflexivity|].
  apply Hok. simpl. lia.
Qed.

Lemma allocate_block_opens_a_page_witness :
  allocate_block example_pages 2
    {| pages := [66560]; active_page_first_free_byte := 132090;
       active_page_bytes_left := 6 |} 24 8 =
    Ok (132096, {| pages := [66560; 132096]; active_page_first_free_byte := 132120;
                   active_page_bytes_left := 65512 |}).
Proof.
  apply (allocate_block_opens_a_page example_pages 0
           {| pages := [66560]; active_page_first_free_byte := 132090;
              active_page_bytes_left := 6 |} 24 8).
  - split; [reflexivity|]. right. exists 0%nat. vm_compute. intuition discriminate.
  - apply example_pages_ok. simpl. lia.
  - unfold MAX_SMALL_BLOCK_SIZE. lia.
  - exists 3. split; [lia | reflexivity].
  - unfold PAGE_SIZE, MAX_SMALL_BLOCK_SIZE. lia.
  - right. vm_compute. reflexivity.
Defined.

(** X3. Every returning call leaves the allocator in order: the pages it had
  are still there, in place, with new ones only appended; the block lies in
  the last page; the cursor is right behind the block and not null; and the
  bytes left are what remains of that page behind the cursor. *)
Theorem allocate_block_keeps_the_books (page_addr : nat -> Z) (fuel : nat) (a : Allocator) (size alignment p : Z)
    (a' : Allocator) :
  allocate_block page_addr fuel a size alignment = Ok (p, a') ->
  Allocator_shape page_addr a -> pages_ok page_addr (length (pages a')) ->
  0 <= size -> is_alignment alignment ->
  Allocator_shape page_addr a' /\
  (exists l, pages a' = pages a ++ l) /\
  active_page_first_free_byte a' = p + size /\
  active_page_first_free_byte a' <> 0 /\
  exists n, length (pages a') = S n /\
            page_addr n <= p /\
            0 <= active_page_bytes_left a' /\
            p + size + active_page_bytes_left a' = page_addr n + PAGE_SIZE.
Proof.
  intros Hrun Hshape Hok Hsize Hal.
  destruct (allocate_block_sound _ _ _ _ _ _ _ Hrun Hshape Hok Hsize Hal) as (Hs' & Hp & _).
  destruct (allocate_block_in_last_page _ _ _ _ _ _ _ Hrun Hshape Hok Hsize Hal)
    as (n & Hn & Hlo & Hcur & Hleft & Hend).
  split; [exact Hs'|]. split; [eapply allocate_block_pages; exact Hrun|].
  split; [exact Hcur|]. split; [lia|].
  exists n. repeat split; assumption.
Qed.

Lemma allocate_block_keeps_the_books_witness :
  Allocator_shape example_pages
    {| pages := [66560]; active_page_first_free_byte := 66584;
       active_page_bytes_left := 65512 |} /\
  (exists l, [66560] = pages new_Allocator ++ l) /\
  66584 = 66560 + 24 /\
  66584 <> 0 /\
  exists n, length [66560] = S n /\
            example_pages n <= 66560 /\
            0 <= 65512 /\
            66560 + 24 + 65512 = example_pages n + PAGE_SIZE.
Proof.
  apply (allocate_block_keeps_the_books example_pages 1 new_Allocator 24 8 66560
           {| pages := [66560]; active_page_first_free_byte := 66584;
              active_page_bytes_left := 65512 |}).
  - vm_compute. reflexivity.
  - split; [reflexivity | left; reflexivity].
  - apply example_pages_ok. simpl. lia.
  - lia.
  - exists 3. split; [lia | reflexivity].
Defined.

(** X4. A request for no bytes takes nothing: when the cursor is already
  aligned the call returns the cursor itself and leaves the allocator as it
  was, so the block of the next request starts at the very same address. *)
Theorem allocate_block_of_nothing (page_addr : nat -> Z) (fuel : nat) (a : Allocator)
    (alignment : Z) :
  Allocator_shape page_addr a ->
  pages_ok page_addr (length (pages a)) ->
  active_page_first_free_byte a <> 0 ->
  is_alignment alignment ->
  active_page_first_free_byte a mod alignment = 0 ->
  allocate_block page_addr (S fuel) a 0 alignment = Ok (active_page_first_free_byte a, a).
Proof.
  intros [_ Hcur] Hok Hact Hal Haligned.
  destruct Hcur as [? | (n & Hn & Hlo & Hleft & Hend)]; [contradiction|].
  destruct (Hok n ltac:(lia)) as (Hpos & Hin & _).
  assert (Hsame : align_up (active_page_first_free_byte a) alignment
                  = active_page_first_free_byte a).
  { unfold align_up. pose proof (is_alignment_pos _ Hal).
    rewrite Z.mod_opp_l_z by (try assumption; lia). lia. }
  rewrite allocate_block_fits
    by (try assumption; unfold MAX_SMALL_BLOCK_SIZE; rewrite ?Hsame; lia).
  rewrite Hsame. destruct a as [pgs ff bl]. cbn. do 3 f_equal; lia.
Qed.

Lemma allocate_block_of_nothing_witness :
  allocate_block example_pages 1
    {| pages := [66560]; active_page_first_free_byte := 66584;
       active_page_bytes_left := 65512 |} 0 8 =
    Ok (active_page_first_free_byte
          {| pages := [66560]; active_page_first_free_byte := 66584;
             active_page_bytes_left := 65512 |},
        {| pages := [66560]; active_page_first_free_byte := 66584;
           active_page_bytes_left := 65512 |}).
Proof.
  apply (allocate_block_of_nothing example_pages 0
           {| pages := [66560]; active_page_first_free_byte := 66584;
              active_page_bytes_left := 65512 |} 8).
  - split; [reflexivity|]. right. exists 0%nat. vm_compute. intuition discriminate.
  - apply example_pages_ok. simpl. lia.
  - simpl. lia.
  - exists 3. split; [lia | reflexivity].
  - reflexivity.
Defined.
End AllocatorSteps.

(** ** The constructors and [add_child] in the region *)

Section RegionObjects.
Import without_raii.



(** A capacity whose block is above [MAX_SMALL_BLOCK_SIZE] ends the process
    in the constructor of [Vector]. *)
Lemma new_Vector_too_large (page_addr : nat -> Z) (fuel : nat) (a : Allocator) (m : Z) :
  - 2 ^ 28 <= m < 0 \/ 512 < m < 2 ^ 28 ->
  new_Vector page_addr (S fuel) a m = Terminated too_large_diagnostic.
Proof.
  intros Hm. unfold new_Vector.
  change (aligned_item_size sizeof_ptr alignof_ptr) with 8.
  rewrite wrap_int_small by (unfold int_range; lia).
  rewrite allocate_block_unfold.
  assert (Hbig : MAX_SMALL_BLOCK_SIZE < to_size_t (m * 8)).
  { unfold to_size_t, MAX_SMALL_BLOCK_SIZE. destruct Hm as [Hneg | Hwide].
    - rewrite <- (Z.mod_unique_pos (m * 8) (2 ^ 64) (-1) (2 ^ 64 + m * 8)); lia.
    - rewrite Z.mod_small; lia. }
  destruct (Z.leb_spec (to_size_t (m * 8)) MAX_SMALL_BLOCK_SIZE); [lia | reflexivity].
Qed.



(** X7. [new_object<Node>] puts the node and the block of its child
  pointers on bytes that were never handed out before, the two apart from
  each other and each at a multiple of 8; the node takes the next identifier;
  no other node and no slot is touched. *)
Theorem new_object_Node_places_apart (page_addr : nat -> Z) (fuel : nat) (k : Z) (w : World) :
  0 <= k <= 512 ->
  Allocator_shape page_addr (allocator w) ->
  pages_ok page_addr (2 + length (pages (allocator w))) ->
  exists p b w',
    new_object_Node page_addr (S (S fuel)) k w = Ok (p, w') /\
    node_at w' !! in_region p
      = Some {| children := {| items := b; size := 0; max_size := k |};
                node_id := n_nodes_created (g_stat w) |} /\
    n_nodes_created (g_stat w') = wrap_int (n_nodes_created (g_stat w) + 1) /\
    p mod alignof_Node = 0 /\ b mod alignof_ptr = 0 /\
    (forall q, p <= q < p + sizeof_Node ->
       fresh_addr page_addr (allocator w) (allocator w') q) /\
    (forall q, b <= q < b + sizeof_ptr * k ->
       fresh_addr page_addr (allocator w) (allocator w') q) /\
    (forall q, ~ (p <= q < p + sizeof_Node /\ b <= q < b + sizeof_ptr * k)) /\
    (forall r, r <> in_region p -> node_at w' !! r = node_at w !! r) /\
    slot_at w' = slot_at w.
Proof.
  intros Hk Hshape Hok. unfold new_object_Node.
  destruct (allocate_block_total page_addr fuel (allocator w) sizeof_Node alignof_Node)
    as (p & a1 & Hrun1 & Hgrow1 & _ & Hal1 & Hfresh1); try assumption.
  { eapply pages_ok_le; [|exact Hok]. lia. }
  { unfold sizeof_Node, MAX_SMALL_BLOCK_SIZE. lia. }
  { apply is_alignment_8. }
  { unfold alignof_Node, PAGE_SIZE, MAX_SMALL_BLOCK_SIZE. lia. }
  rewrite Hrun1, bind_Ok_l. unfold new_Node, new_Vector. cbn [allocator set_allocator].
  rewrite (vector_bytes k Hk).
  destruct (allocate_block_total page_addr fuel a1 (8 * k) alignof_ptr)
    as (b & a' & Hrun2 & Hgrow2 & _ & Hal2 & Hfresh2).
  { apply Hgrow1. }
  { destruct Hgrow1 as (_ & Hlen & _). eapply pages_ok_le; [|exact Hok]. lia. }
  { unfold MAX_SMALL_BLOCK_SIZE. lia. }
  { apply is_alignment_8. }
  { unfold alignof_ptr, PAGE_SIZE, MAX_SMALL_BLOCK_SIZE. lia. }
  rewrite Hrun2. simpl.
  eexists p, b, _. split; [reflexivity|].
  cbn [node_at slot_at g_stat allocator]. unfold sizeof_ptr.
  split; [apply lookup_insert_eq|]. split; [reflexivity|].
  split; [exact Hal1|]. split; [exact Hal2|]. split.
  { intros q Hq. eapply fresh_grown; [exact Hgrow2|]. apply Hfresh1, Hq. }
  split.
  { intros q Hq. eapply fresh_earlier; [exact Hgrow1|]. apply Hfresh2, Hq. }
  split.
  { intros q [Hq1 Hq2]. destruct (Hfresh1 q Hq1) as [Hu _].
    destruct (Hfresh2 q Hq2) as [_ Hn]. exact (Hn Hu). }
  split; [|reflexivity].
  intros r Hr. apply lookup_insert_ne. congruence.
Qed.

Lemma new_object_Node_places_apart_witness :
  exists p b w',
    new_object_Node example_pages 2 3 new_World = Ok (p, w') /\
    node_at w' !! in_region p
      = Some {| children := {| items := b; size := 0; max_size := 3 |};
                node_id := n_nodes_created (g_stat new_World) |} /\
    n_nodes_created (g_stat w') = wrap_int (n_nodes_created (g_stat new_World) + 1) /\
    p mod alignof_Node = 0 /\ b mod alignof_ptr = 0 /\
    (forall q, p <= q < p + sizeof_Node ->
       fresh_addr example_pages (allocator new_World) (allocator w') q) /\
    (forall q, b <= q < b + sizeof_ptr * 3 ->
       fresh_addr example_pages (allocator new_World) (allocator w') q) /\
    (forall q, ~ (p <= q < p + sizeof_Node /\ b <= q < b + sizeof_ptr * 3)) /\
    (forall r, r <> in_region p -> node_at w' !! r = node_at new_World !! r) /\
    slot_at w' = slot_at new_World.
Proof.
  apply (new_object_Node_places_apart example_pages 0 3 new_World).
  - lia.
  - split; [reflexivity | left; reflexivity].
  - apply example_pages_ok. simpl. lia.
Defined.


End RegionObjects.

(** ** The tree that is built *)

Section Ranges.

Lemma range_Z_length c n : length (range_Z c n) = n.
Proof. unfold range_Z. rewrite length_map, length_seq. reflexivity. Qed.

Lemma range_Z_S c n : range_Z c (S n) = c :: range_Z (c + 1) n.
Proof.
  unfold range_Z. cbn [seq map]. change (Z.of_nat 0) with 0. rewrite Z.add_0_r. f_equal.
  rewrite <- seq_shift, List.map_map. apply List.map_ext. intros i. lia.
Qed.

Lemma range_Z_app c n m : range_Z c (n + m) = range_Z c n ++ range_Z (c + Z.of_nat n) m.
Proof.
  revert c. induction n as [|n IH]; intros c.
  - change (Z.of_nat 0) with 0. rewrite Z.add_0_r. reflexivity.
  - cbn [Nat.add]. rewrite !range_Z_S, IH. cbn [app]. do 3 f_equal. lia.
Qed.

Lemma range_Z_bounds c n : Forall (fun i => c <= i < c + Z.of_nat n) (range_Z c n).
Proof.
  apply List.Forall_forall. intros i Hi. unfold range_Z in Hi.
  apply in_map_iff in Hi as (j & <- & Hj). apply in_seq in Hj. lia.
Qed.

Lemma range_Z_NoDup n : forall c, List.NoDup (range_Z c n).
Proof.
  induction n as [|n IH]; intros c; [apply List.NoDup_nil|].
  rewrite range_Z_S. apply List.NoDup_cons; [|apply IH].
  intros Hin. pose proof (range_Z_bounds (c + 1) n) as Hb.
  rewrite List.Forall_forall in Hb. specialize (Hb c Hin). lia.
Qed.

Lemma sum_Z_range n : forall c,
  2 * sum_Z (range_Z c n) = Z.of_nat n * (2 * c + Z.of_nat n - 1).
Proof.
  induction n as [|n IH]; intros c; [reflexivity|].
  rewrite range_Z_S. cbn [sum_Z fold_right]. fold (sum_Z (range_Z (c + 1) n)).
  specialize (IH (c + 1)). rewrite Nat2Z.inj_succ. nia.
Qed.
End Ranges.

Section RaiiIdentifiers.
Import with_raii.
Variable k : Z.
Hypothesis k_nonneg : 0 <= k.

Lemma flat_leaf_ids ids : flat_map node_ids (map (mkNode []) ids) = ids.
Proof. induction ids as [|i ids IH]; [reflexivity|]. cbn [map flat_map]. rewrite IH. reflexivity. Qed.

Lemma leaf_descendants_of ids : descendants_of (map (mkNode []) ids) = 0%nat.
Proof. unfold descendants_of. induction ids as [|i ids IH]; [reflexivity | exact IH]. Qed.

Lemma leaf_ids ids : map node_id (map (mkNode []) ids) = ids.
Proof. rewrite List.map_map. cbn [node_id]. apply List.map_id. Qed.

Lemma leaves_consecutive ids : Forall siblings_consecutive (map (mkNode []) ids).
Proof.
  induction ids as [|i ids IH]; constructor; [|exact IH].
  apply (siblings_node [] i 0); [reflexivity | constructor].
Qed.

Lemma flat_ids_split cs :
  Permutation (flat_map node_ids cs)
              (map node_id cs ++ flat_map (fun c => flat_map node_ids (children c)) cs).
Proof.
  induction cs as [|[cc ci] cs IH]; [constructor|].
  cbn [flat_map map node_ids app node_id children].
  apply perm_skip. rewrite IH. apply Permutation_app_swap_app.
Qed.

(** The loop of [add_child]: the new children get the next identifiers in
    order. *)
Lemma raii_add_children_ids n : forall node g,
  0 <= n_nodes_created g -> n_nodes_created g + Z.of_nat n < 2 ^ 31 ->
  for_loop n (add_child tt k) (node, g)
    = Ok (mkNode (children node ++ map (mkNode []) (range_Z (n_nodes_created g) n))
                 (node_id node),
          {| n_nodes_created := n_nodes_created g + Z.of_nat n |}).
Proof.
  induction n as [|n IH]; intros node g Hc Hfit.
  - destruct node, g. cbn. rewrite app_nil_r, Z.add_0_r. reflexivity.
  - cbn [for_loop]. rewrite (raii_add_child k k_nonneg), bind_Ok_l.
    assert (Hnext : n_nodes_created (snd (next_node_id g)) = n_nodes_created g + 1).
    { cbn. apply wrap_int_small. unfold int_range. lia. }
    rewrite IH by (rewrite Hnext; lia).
    rewrite Hnext, range_Z_S. cbn [children node_id map].
    rewrite <- app_assoc. cbn [app]. do 3 f_equal. lia.
Qed.

Lemma for_each_mut_ids (body : Node -> AllocationStat -> Outcome (Node * AllocationStat)) :
  (forall id g t g',
     0 <= n_nodes_created g ->
     body (mkNode [] id) g = Ok (t, g') ->
     n_nodes_created g + Z.of_nat (descendants t) < 2 ^ 31 ->
     node_id t = id /\
     Permutation (flat_map node_ids (children t))
                 (range_Z (n_nodes_created g) (descendants t)) /\
     n_nodes_created g' = n_nodes_created g + Z.of_nat (descendants t) /\
     siblings_consecutive t) ->
  forall ids g cs' g',
    0 <= n_nodes_created g ->
    for_each_mut (map (mkNode []) ids) body g = Ok (cs', g') ->
    n_nodes_created g + Z.of_nat (descendants_of cs') < 2 ^ 31 ->
    map node_id cs' = ids /\
    Permutation (flat_map (fun c => flat_map node_ids (children c)) cs')
                (range_Z (n_nodes_created g) (descendants_of cs')) /\
    n_nodes_created g' = n_nodes_created g + Z.of_nat (descendants_of cs') /\
    Forall siblings_consecutive cs'.
Proof.
  intros Hbody. induction ids as [|id ids IH]; intros g cs' g' Hc Hrun Hfit.
  - inversion Hrun; subst. cbn. split; [reflexivity|]. split; [constructor|].
    split; [lia | constructor].
  - cbn [map] in Hrun.
    apply for_each_mut_cons in Hrun as (t & g1 & cs1 & Hhead & Hrest & ->).
    rewrite descendants_of_cons in Hfit |- *.
    destruct (Hbody id g t g1 Hc Hhead ltac:(lia)) as (Hid & Hperm & Hg1 & Hsib).
    destruct (IH g1 cs1 g' ltac:(lia) Hrest ltac:(lia)) as (Hids & Hperm' & Hg' & Hsibs).
    split; [cbn [map]; congruence|]. split; [|split; [lia | constructor; assumption]].
    cbn [flat_map]. rewrite range_Z_app, <- Hg1.
    apply Permutation_app; assumption.
Qed.

(** [build_subtree] hands the nodes below the one it is given the
    identifiers from the counter on, each once, the children of a node
    first and in a row. *)
Lemma raii_build_subtree_ids fuel : forall l id g t g',
  0 <= n_nodes_created g ->
  build_subtree k fuel tt (mkNode [] id) l g = Ok (t, g') ->
  n_nodes_created g + Z.of_nat (descendants t) < 2 ^ 31 ->
  node_id t = id /\
  Permutation (flat_map node_ids (children t)) (range_Z (n_nodes_created g) (descendants t)) /\
  n_nodes_created g' = n_nodes_created g + Z.of_nat (descendants t) /\
  siblings_consecutive t.
Proof.
  induction fuel as [|fuel IH]; intros l id g t g' Hc Hrun Hfit; [discriminate|].
  pose proof (raii_build_subtree_kids k k_nonneg _ _ _ _ _ _ Hrun) as Hkids.
  cbn [build_subtree] in Hrun.
  rewrite raii_add_children_ids in Hrun by lia.
  rewrite bind_Ok_l in Hrun. cbn [children node_id app] in Hrun.
  destruct (wrap_int (l - 1) <=? 0).
  - inversion Hrun; subst t g'; clear Hrun.
    unfold descendants in *. cbn [children node_id] in *.
    rewrite flat_leaf_ids in *. rewrite range_Z_length in *.
    split; [reflexivity|]. split; [reflexivity|]. split; [cbn; lia|].
    apply (siblings_node _ _ (n_nodes_created g)); [|apply leaves_consecutive].
    rewrite leaf_ids, length_map, range_Z_length. reflexivity.
  - apply bind_Ok in Hrun as ([cs' g2] & Hloop & Hret).
    inversion Hret; subst t g'; clear Hret.
    pose proof (for_each_mut_length _ _ _ _ _ Hloop) as Hlen.
    rewrite length_map, range_Z_length in Hlen.
    rewrite descendants_unfold, Hlen in Hfit |- *.
    pose proof (for_each_mut_ids
                  (fun c g => build_subtree k fuel tt c (wrap_int (l - 1)) g)
                  (IH (wrap_int (l - 1)))
                  (range_Z (n_nodes_created g) (Z.to_nat k))
                  {| n_nodes_created := n_nodes_created g + Z.of_nat (Z.to_nat k) |}
                  cs' g2) as Hsub.
    cbn [n_nodes_created] in Hsub.
    destruct (Hsub ltac:(lia) Hloop ltac:(lia)) as (Hids & Hperm & Hg2 & Hsibs).
    split; [reflexivity|]. split.
    { cbn [children]. rewrite flat_ids_split, Hids, range_Z_app.
      apply Permutation_app; [reflexivity | exact Hperm]. }
    split; [lia|].
    apply (siblings_node _ _ (n_nodes_created g)); [|exact Hsibs].
    rewrite Hids, Hlen. reflexivity.
Qed.

(** The identifiers of the tree [build_tree] returns are [0 .. N - 1]. *)
Lemma raii_build_tree_ids fuel d t g :
  build_tree k d fuel tt fresh_stat = Ok (t, g) ->
  node_count t < 2 ^ 31 ->
  Permutation (node_ids t) (range_Z 0 (Z.to_nat (node_count t))) /\
  n_nodes_created g = node_count t /\
  node_id t = 0 /\ siblings_consecutive t.
Proof.
  intros Hrun Hfit. unfold build_tree in Hrun.
  rewrite (raii_new_Node k k_nonneg), bind_Ok_l in Hrun.
  assert (Hcount : node_count t = Z.of_nat (S (descendants t)))
    by (destruct t; reflexivity).
  rewrite Hcount in *. rewrite Nat2Z.id.
  pose proof (raii_build_subtree_ids fuel d 0 (snd (next_node_id fresh_stat)) t g) as Hsub.
  change (n_nodes_created (snd (next_node_id fresh_stat))) with 1 in Hsub.
  destruct (Hsub ltac:(lia) Hrun ltac:(lia)) as (Hid & Hperm & Hg & Hsib).
  split; [|split; [lia | split; [exact Hid | exact Hsib]]].
  destruct t as [cs id]. cbn [node_ids]. cbn [node_id children] in *.
  rewrite range_Z_S, Hid. apply perm_skip. exact Hperm.
Qed.

(** [build_subtree] makes a full tree: every node above the last level gets
    exactly [k] children. *)
Lemma raii_build_subtree_full fuel : forall l node g t g',
  children node = [] -> - 2 ^ 31 < l < 2 ^ 31 ->
  build_subtree k fuel tt node l g = Ok (t, g') ->
  full_tree (Z.to_nat k) (levels l) t.
Proof.
  induction fuel as [|fuel IH]; intros l node g t g' Hleaf Hl Hrun; [discriminate|].
  cbn [build_subtree] in Hrun.
  destruct (raii_add_children k k_nonneg (Z.to_nat k) node g)
    as (leaves & g1 & Hloop & Hlen & Hleaves & _).
  rewrite Hloop, bind_Ok_l, Hleaf in Hrun. cbn [app children node_id] in Hrun.
  rewrite wrap_int_small in Hrun by (unfold int_range; lia).
  destruct (Z.leb_spec (l - 1) 0) as [Hlast | Hmore].
  - inversion Hrun; subst t g'; clear Hrun.
    rewrite (levels_one l) by lia. cbn [full_tree children].
    split; [exact Hlen | exact Hleaves].
  - apply bind_Ok in Hrun as ([cs' g2] & Hrec & Hret).
    inversion Hret; subst t g'; clear Hret.
    rewrite (levels_succ l) by lia. cbn [full_tree children]. split.
    + rewrite (for_each_mut_length _ _ _ _ _ Hrec). exact Hlen.
    + eapply (for_each_mut_Forall (fun c => children c = [])); [|exact Hleaves|exact Hrec].
      intros c g0 t0 g0' Hc Hsub. eapply IH; [exact Hc | | exact Hsub]. lia.
Qed.

(** More fuel than needed changes nothing. *)
Lemma for_each_mut_Ok_ext {A S : Type} (body1 body2 : A -> S -> Outcome (A * S)) :
  (forall x s r, body1 x s = Ok r -> body2 x s = Ok r) ->
  forall xs s r, for_each_mut xs body1 s = Ok r -> for_each_mut xs body2 s = Ok r.
Proof.
  intros Hext. induction xs as [|x xs IH]; intros s r Hrun; [exact Hrun|].
  destruct r as [ys s'].
  apply for_each_mut_cons in Hrun as (y & s1 & ys' & Hhead & Hrest & ->).
  cbn [for_each_mut]. rewrite (Hext _ _ _ Hhead), bind_Ok_l.
  rewrite (IH _ _ Hrest), bind_Ok_l. reflexivity.
Qed.

Lemma raii_build_subtree_more_fuel fuel : forall l node g r,
  build_subtree k fuel tt node l g = Ok r -> build_subtree k (S fuel) tt node l g = Ok r.
Proof.
  induction fuel as [|fuel IH]; intros l node g r Hrun; [discriminate|].
  change (build_subtree k (S (S fuel)) tt node l g) with
    ('(node, g) ← for_loop (Z.to_nat k) (add_child tt k) (node, g);
     if wrap_int (l - 1) <=? 0 then Ok (node, g)
     else
       '(cs, g) ← for_each_mut (children node)
                    (fun c g => build_subtree k (S fuel) tt c (wrap_int (l - 1)) g) g;
       Ok ({| children := cs; node_id := node_id node |}, g)).
  cbn [build_subtree] in Hrun.
  apply bind_Ok in Hrun as ([node1 g1] & Hloop & Hrun).
  rewrite Hloop, bind_Ok_l.
  destruct (wrap_int (l - 1) <=? 0); [exact Hrun|].
  apply bind_Ok in Hrun as ([cs g2] & Hrec & Hret).
  rewrite (for_each_mut_Ok_ext _ _ (fun c s r => IH (wrap_int (l - 1)) c s r) _ _ _ Hrec).
  rewrite bind_Ok_l. exact Hret.
Qed.

Lemma raii_test_more_fuel d fuel r :
  test k d fuel = Ok r -> test k d (S fuel) = Ok r.
Proof.
  unfold test, build_tree. rewrite (raii_new_Node k k_nonneg), !bind_Ok_l.
  intros Hrun. apply bind_Ok in Hrun as ([t g] & Hbuild & Hret).
  rewrite (raii_build_subtree_more_fuel _ _ _ _ _ Hbuild), bind_Ok_l. exact Hret.
Qed.
End RaiiIdentifiers.

(** ** Whole runs *)

Section WholeRuns.
Import without_raii.

(** The two builds and the tree they share. *)
Lemma both_builds (page_addr : nat -> Z) (k d : Z) (fuel : nat) :
  0 <= k <= 512 -> - 2 ^ 31 < d < 2 ^ 31 -> (levels d <= fuel)%nat ->
  pages_ok page_addr (Z.to_nat (2 * sum_of_powers k (levels d))) ->
  exists t g w,
    with_raii.build_tree k d fuel tt fresh_stat = Ok (t, g) /\
    with_raii.node_count t = sum_of_powers k (levels d) /\
    n_nodes_created g = wrap_int (sum_of_powers k (levels d)) /\
    build_tree page_addr k d (S fuel) new_World = Ok w /\
    g_stat w = g /\
    repr (fun _ => True) (fun _ => True) w stack_root t /\
    traverse (S fuel) w stack_root = Ok (with_raii.traverse t).
Proof.
  intros Hk Hd Hfuel Hpages.
  destruct (raii_build_tree_returns k ltac:(lia) fuel d Hd Hfuel)
    as (t & g & Hraii & Hcount & Hstat).
  destruct (region_run_simulated page_addr k Hk fuel d t g Hraii)
    as (w & Hbuild & Hg & Hrepr & Hwalk & _).
  { eapply pages_budget; eassumption. }
  exists t, g, w. repeat (split; [assumption|]). assumption.
Qed.

(** The results of the two runs, in closed form. *)
Lemma runs_closed_form (page_addr : nat -> Z) (k d : Z) (fuel : nat) :
  0 <= k <= 512 -> - 2 ^ 31 < d < 2 ^ 31 -> (levels d <= fuel)%nat ->
  sum_of_powers k (levels d) <= CHECKSUM_MODULUS ->
  pages_ok page_addr (Z.to_nat (2 * sum_of_powers k (levels d))) ->
  with_raii.test k d fuel
    = Ok ((sum_of_powers k (levels d) * (sum_of_powers k (levels d) - 1) / 2)
            mod CHECKSUM_MODULUS,
          {| n_nodes_created := sum_of_powers k (levels d) |}) /\
  test page_addr k d (S fuel)
    = Ok ((sum_of_powers k (levels d) * (sum_of_powers k (levels d) - 1) / 2)
            mod CHECKSUM_MODULUS,
          {| n_nodes_created := sum_of_powers k (levels d) |}).
Proof.
  intros Hk Hd Hfuel Hmod Hpages.
  destruct (both_builds page_addr k d fuel Hk Hd Hfuel Hpages)
    as (t & g & w & Hraii & Hcount & _ & Hbuild & Hg & _ & Hwalk).
  set (N := sum_of_powers k (levels d)) in *.
  unfold CHECKSUM_MODULUS in Hmod.
  destruct (raii_build_tree_ids k ltac:(lia) fuel d t g Hraii ltac:(lia))
    as (Hperm & Hstat & _).
  rewrite Hcount in Hperm, Hstat.
  assert (Hpos : 0 <= N).
  { rewrite <- Hcount. unfold with_raii.node_count. lia. }
  assert (Hsum : with_raii.traverse t = (N * (N - 1) / 2) mod CHECKSUM_MODULUS).
  { rewrite traverse_sum.
    - rewrite (sum_Z_Permutation _ _ Hperm). f_equal.
      apply Z.div_unique_exact; [lia|].
      rewrite sum_Z_range, Z2Nat.id by lia. lia.
    - eapply Permutation_Forall; [symmetry; exact Hperm|].
      eapply Forall_impl; [apply range_Z_bounds|].
      cbv beta. unfold CHECKSUM_MODULUS. intros i Hi. rewrite Z2Nat.id in Hi by lia. lia. }
  assert (Hgeq : g = {| n_nodes_created := N |}) by (destruct g; cbn in Hstat; congruence).
  split.
  - unfold with_raii.test. rewrite Hraii, bind_Ok_l, Hsum, Hgeq. reflexivity.
  - unfold test. rewrite Hbuild, bind_Ok_l, Hwalk, bind_Ok_l, Hg, Hsum, Hgeq. reflexivity.
Qed.

Lemma slot_addrs_empty (b m : Z) : slot_addrs {| items := b; size := 0; max_size := m |} = [].
Proof.
  unfold slot_addrs, end_, begin_, sizeof_ptr. cbn [items size].
  replace (b + 8 * 0 - b) with 0 by lia. reflexivity.
Qed.

(** X9. The tree both strategies build is full: down to the last level every
  node has exactly [N_CHILDREN] children, and the nodes of the last level,
  [max TREE_DEPTH 1] levels below the root, have none. *)
Theorem build_tree_is_full (page_addr : nat -> Z) (k d : Z) (fuel : nat) :
  0 <= k <= 512 -> - 2 ^ 31 < d < 2 ^ 31 -> (levels d <= fuel)%nat ->
  pages_ok page_addr (Z.to_nat (2 * sum_of_powers k (levels d))) ->
  exists t g w,
    with_raii.build_tree k d fuel tt fresh_stat = Ok (t, g) /\
    build_tree page_addr k d (S fuel) new_World = Ok w /\
    repr (fun _ => True) (fun _ => True) w stack_root t /\
    with_raii.full_tree (Z.to_nat k) (levels d) t.
Proof.
  intros Hk Hd Hfuel Hpages.
  destruct (both_builds page_addr k d fuel Hk Hd Hfuel Hpages)
    as (t & g & w & Hraii & _ & _ & Hbuild & _ & Hrepr & _).
  exists t, g, w. split; [exact Hraii|]. split; [exact Hbuild|]. split; [exact Hrepr|].
  unfold with_raii.build_tree in Hraii.
  rewrite (raii_new_Node k ltac:(lia)), bind_Ok_l in Hraii.
  eapply (raii_build_subtree_full k ltac:(lia)); [| exact Hd | exact Hraii]. reflexivity.
Qed.

Lemma build_tree_is_full_witness :
  exists t g w,
    with_raii.build_tree 3 2 2 tt fresh_stat = Ok (t, g) /\
    build_tree example_pages 3 2 3 new_World = Ok w /\
    repr (fun _ => True) (fun _ => True) w stack_root t /\
    with_raii.full_tree (Z.to_nat 3) (levels 2) t.
Proof.
  apply (build_tree_is_full example_pages 3 2 2).
  - lia.
  - lia.
  - unfold levels. simpl. lia.
  - apply example_pages_ok. simpl. lia.
Defined.

(** X10. When the number of nodes [N] fits an [int], the identifiers of the
  nodes of the tree are exactly [0, 1, ..., N - 1], each carried by one node,
  in both strategies; the counter of created nodes ends at [N]. *)
Theorem identifiers_are_0_to_N (page_addr : nat -> Z) (k d : Z) (fuel : nat) :
  0 <= k <= 512 -> - 2 ^ 31 < d < 2 ^ 31 -> (levels d <= fuel)%nat ->
  sum_of_powers k (levels d) < 2 ^ 31 ->
  pages_ok page_addr (Z.to_nat (2 * sum_of_powers k (levels d))) ->
  exists t g w,
    with_raii.build_tree k d fuel tt fresh_stat = Ok (t, g) /\
    build_tree page_addr k d (S fuel) new_World = Ok w /\
    repr (fun _ => True) (fun _ => True) w stack_root t /\
    Permutation (with_raii.node_ids t)
                (range_Z 0 (Z.to_nat (sum_of_powers k (levels d)))) /\
    List.NoDup (with_raii.node_ids t) /\
    n_nodes_created g = sum_of_powers k (levels d) /\
    n_nodes_created (g_stat w) = sum_of_powers k (levels d).
Proof.
  intros Hk Hd Hfuel Hint Hpages.
  destruct (both_builds page_addr k d fuel Hk Hd Hfuel Hpages)
    as (t & g & w & Hraii & Hcount & _ & Hbuild & Hg & Hrepr & _).
  destruct (raii_build_tree_ids k ltac:(lia) fuel d t g Hraii ltac:(lia))
    as (Hperm & Hstat & _).
  rewrite Hcount in Hperm, Hstat.
  exists t, g, w. split; [exact Hraii|]. split; [exact Hbuild|]. split; [exact Hrepr|].
  split; [exact Hperm|]. split.
  - eapply Permutation_NoDup; [symmetry; exact Hperm | apply range_Z_NoDup].
  - rewrite Hg. split; exact Hstat.
Qed.

Lemma identifiers_are_0_to_N_witness :
  exists t g w,
    with_raii.build_tree 3 2 2 tt fresh_stat = Ok (t, g) /\
    build_tree example_pages 3 2 3 new_World = Ok w /\
    repr (fun _ => True) (fun _ => True) w stack_root t /\
    Permutation (with_raii.node_ids t) (range_Z 0 (Z.to_nat (sum_of_powers 3 (levels 2)))) /\
    List.NoDup (with_raii.node_ids t) /\
    n_nodes_created g = sum_of_powers 3 (levels 2) /\
    n_nodes_created (g_stat w) = sum_of_powers 3 (levels 2).
Proof.
  apply (identifiers_are_0_to_N example_pages 3 2 2).
  - lia.
  - lia.
  - unfold levels. simpl. lia.
  - unfold levels. simpl. lia.
  - apply example_pages_ok. simpl. lia.
Defined.

(** X11. The children of a node are numbered in a row: [build_subtree]
  first gives a node all its children, and only then goes down into them, so
  in both strategies the identifiers of siblings are consecutive, in the
  order of [children]; the root is node 0. *)
Theorem siblings_are_numbered_in_a_row (page_addr : nat -> Z) (k d : Z) (fuel : nat) :
  0 <= k <= 512 -> - 2 ^ 31 < d < 2 ^ 31 -> (levels d <= fuel)%nat ->
  sum_of_powers k (levels d) < 2 ^ 31 ->
  pages_ok page_addr (Z.to_nat (2 * sum_of_powers k (levels d))) ->
  exists t g w,
    with_raii.build_tree k d fuel tt fresh_stat = Ok (t, g) /\
    build_tree page_addr k d (S fuel) new_World = Ok w /\
    repr (fun _ => True) (fun _ => True) w stack_root t /\
    with_raii.node_id t = 0 /\
    with_raii.siblings_consecutive t.
Proof.
  intros Hk Hd Hfuel Hint Hpages.
  destruct (both_builds page_addr k d fuel Hk Hd Hfuel Hpages)
    as (t & g & w & Hraii & Hcount & _ & Hbuild & _ & Hrepr & _).
  destruct (raii_build_tree_ids k ltac:(lia) fuel d t g Hraii ltac:(lia))
    as (_ & _ & Hroot & Hsib).
  exists t, g, w. split; [exact Hraii|]. split; [exact Hbuild|]. split; [exact Hrepr|].
  split; [exact Hroot | exact Hsib].
Qed.

Lemma siblings_are_numbered_in_a_row_witness :
  exists t g w,
    with_raii.build_tree 3 2 2 tt fresh_stat = Ok (t, g) /\
    build_tree example_pages 3 2 3 new_World = Ok w /\
    repr (fun _ => True) (fun _ => True) w stack_root t /\
    with_raii.node_id t = 0 /\
    with_raii.siblings_consecutive t.
Proof.
  apply (siblings_are_numbered_in_a_row example_pages 3 2 2).
  - lia.
  - lia.
  - unfold levels. simpl. lia.
  - unfold levels. simpl. lia.
  - apply example_pages_ok. simpl. lia.
Defined.

(** X12. The checksum in closed form. For a tree of [N] nodes with [N] at
  most 43112609 both runs report the checksum [(N * (N - 1) / 2) mod 43112609]
  and the node count [N]: the checksum depends on the number of nodes only. *)
Theorem checksum_in_closed_form (page_addr : nat -> Z) (k d : Z) (fuel : nat) :
  0 <= k <= 512 -> - 2 ^ 31 < d < 2 ^ 31 -> (levels d <= fuel)%nat ->
  sum_of_powers k (levels d) <= CHECKSUM_MODULUS ->
  pages_ok page_addr (Z.to_nat (2 * sum_of_powers k (levels d))) ->
  with_raii.test k d fuel
    = Ok ((sum_of_powers k (levels d) * (sum_of_powers k (levels d) - 1) / 2)
            mod CHECKSUM_MODULUS,
          {| n_nodes_created := sum_of_powers k (levels d) |}) /\
  test page_addr k d (S fuel)
    = Ok ((sum_of_powers k (levels d) * (sum_of_powers k (levels d) - 1) / 2)
            mod CHECKSUM_MODULUS,
          {| n_nodes_created := sum_of_powers k (levels d) |}).
Proof. apply runs_closed_form. Qed.

Lemma checksum_in_closed_form_witness :
  with_raii.test 3 2 2
    = Ok ((sum_of_powers 3 (levels 2) * (sum_of_powers 3 (levels 2) - 1) / 2)
            mod CHECKSUM_MODULUS,
          {| n_nodes_created := sum_of_powers 3 (levels 2) |}) /\
  test example_pages 3 2 3
    = Ok ((sum_of_powers 3 (levels 2) * (sum_of_powers 3 (levels 2) - 1) / 2)
            mod CHECKSUM_MODULUS,
          {| n_nodes_created := sum_of_powers 3 (levels 2) |}).
Proof.
  apply (checksum_in_closed_form example_pages 3 2 2).
  - lia.
  - lia.
  - unfold levels. simpl. lia.
  - vm_compute. discriminate.
  - apply example_pages_ok. simpl. lia.
Defined.

(** The constants the program is shipped with, [N_CHILDREN = 3] and
    [TREE_DEPTH = 15]: 21523360 nodes, checksum 9167976. *)
Lemma shipped_configuration (page_addr : nat -> Z) (fuel : nat) :
  (15 <= fuel)%nat -> pages_ok page_addr (Z.to_nat 43046720) ->
  with_raii.test 3 15 fuel = Ok (9167976, {| n_nodes_created := 21523360 |}) /\
  test page_addr 3 15 (S fuel) = Ok (9167976, {| n_nodes_created := 21523360 |}).
Proof.
  intros Hfuel Hpages.
  pose proof (runs_closed_form page_addr 3 15 fuel ltac:(lia) ltac:(lia)) as Hruns.
  assert (HN : sum_of_powers 3 (levels 15) = 21523360) by (vm_compute; reflexivity).
  rewrite HN in Hruns.
  apply Hruns; [exact Hfuel | unfold CHECKSUM_MODULUS; lia | exact Hpages].
Qed.

(** X13. Without children there is no tree: with [N_CHILDREN = 0] both runs
  create the root only and report the checksum 0 and one node, whatever
  [TREE_DEPTH] is. *)
Theorem childless_root_only (page_addr : nat -> Z) (d : Z) (fuel : nat) :
  pages_ok page_addr 1 ->
  with_raii.test 0 d (S fuel) = Ok (0, {| n_nodes_created := 1 |}) /\
  test page_addr 0 d (S fuel) = Ok (0, {| n_nodes_created := 1 |}).
Proof.
  intros Hok. split.
  - unfold with_raii.test, with_raii.build_tree.
    rewrite (raii_new_Node 0 ltac:(lia)), bind_Ok_l.
    cbn [with_raii.build_subtree]. change (Z.to_nat 0) with 0%nat. cbn [for_loop].
    rewrite bind_Ok_l.
    destruct (wrap_int (d - 1) <=? 0); reflexivity.
  - unfold test, build_tree, new_Node, new_Vector.
    change (to_size_t (wrap_int (0 * aligned_item_size sizeof_ptr alignof_ptr))) with 0.
    rewrite (allocate_block_null_cursor page_addr fuel (allocator new_World) 0 alignof_ptr).
    + rewrite !bind_Ok_l. cbn [next_node_id g_stat allocator node_at slot_at new_World].
      rewrite bind_Ok_l. cbn [g_stat allocator node_at slot_at].
      rewrite region_build_subtree_unfold. change (Z.to_nat 0) with 0%nat.
      cbn [for_loop]. rewrite bind_Ok_l.
      cbn [node_at]. rewrite lookup_insert_eq. cbn [from_option]. rewrite bind_Ok_l.
      cbn [children]. rewrite slot_addrs_empty. cbn [for_each].
      assert (Hwalk : forall w, (if wrap_int (d - 1) <=? 0 then Ok w else Ok w) = Ok w :> Outcome World)
        by (intros w'; destruct (wrap_int (d - 1) <=? 0); reflexivity).
      rewrite Hwalk, bind_Ok_l. cbn [traverse node_at].
      rewrite lookup_insert_eq. cbn [from_option]. rewrite bind_Ok_l.
      cbn [children]. rewrite slot_addrs_empty. reflexivity.
    + reflexivity.
    + apply Hok. simpl. lia.
    + unfold MAX_SMALL_BLOCK_SIZE. lia.
    + apply is_alignment_8.
    + unfold alignof_ptr, PAGE_SIZE, MAX_SMALL_BLOCK_SIZE. lia.
Qed.

Lemma childless_root_only_witness :
  with_raii.test 0 15 1 = Ok (0, {| n_nodes_created := 1 |}) /\
  test example_pages 0 15 1 = Ok (0, {| n_nodes_created := 1 |}).
Proof.
  apply (childless_root_only example_pages 15 0).
  apply example_pages_ok. simpl. lia.
Defined.

(** X14. A [TREE_DEPTH] of 0 or below is taken as 1: [build_subtree] adds
  the children before it looks at the number of levels left, so the root
  always gets its [N_CHILDREN] children. Both runs then report [1 + k] nodes
  and the checksum [k * (k + 1) / 2]. *)
Theorem shallow_depth_is_one_level (page_addr : nat -> Z) (k d : Z) (fuel : nat) :
  0 <= k <= 512 -> - 2 ^ 31 < d <= 1 -> (1 <= fuel)%nat ->
  pages_ok page_addr (Z.to_nat (2 * (1 + k))) ->
  with_raii.test k d fuel = Ok (k * (k + 1) / 2, {| n_nodes_created := 1 + k |}) /\
  test page_addr k d (S fuel) = Ok (k * (k + 1) / 2, {| n_nodes_created := 1 + k |}).
Proof.
  intros Hk Hd Hfuel Hpages.
  pose proof (runs_closed_form page_addr k d fuel Hk ltac:(lia)) as Hruns.
  rewrite (levels_one d) in Hruns by lia.
  change (sum_of_powers k 1) with (1 + k ^ 1) in Hruns. rewrite Z.pow_1_r in Hruns.
  replace ((1 + k) * (1 + k - 1)) with (k * (k + 1)) in Hruns by lia.
  assert (Hsmall : 0 <= k * (k + 1) / 2 < CHECKSUM_MODULUS).
  { unfold CHECKSUM_MODULUS. split.
    - apply Z.div_pos; nia.
    - apply Z.div_lt_upper_bound; nia. }
  rewrite (Z.mod_small _ _ Hsmall) in Hruns.
  apply Hruns; [exact Hfuel | unfold CHECKSUM_MODULUS; lia | exact Hpages].
Qed.

Lemma shallow_depth_is_one_level_witness :
  with_raii.test 3 0 1 = Ok (3 * (3 + 1) / 2, {| n_nodes_created := 1 + 3 |}) /\
  test example_pages 3 0 2 = Ok (3 * (3 + 1) / 2, {| n_nodes_created := 1 + 3 |}).
Proof.
  apply (shallow_depth_is_one_level example_pages 3 0 1).
  - lia.
  - lia.
  - lia.
  - apply example_pages_ok. simpl. lia.
Defined.

(** X15. [main] does not reach its internal error: for 0 to 512 children
  per node the two reports agree, the comparison passes, and the line with
  the node count prints the counter of created nodes together with
  [TREE_DEPTH] and [N_CHILDREN]. *)
Theorem main_reports_the_node_count (page_addr : nat -> Z) (k d : Z) (fuel : nat) :
  0 <= k <= 512 -> - 2 ^ 31 < d < 2 ^ 31 -> (levels d <= fuel)%nat ->
  pages_ok page_addr (Z.to_nat (2 * sum_of_powers k (levels d))) ->
  main page_addr k d (S fuel) = Ok (wrap_int (sum_of_powers k (levels d)), d, k).
Proof.
  intros Hk Hd Hfuel Hpages.
  destruct (both_builds page_addr k d fuel Hk Hd Hfuel Hpages)
    as (t & g & w & Hraii & _ & Hstat & Hbuild & Hg & _ & Hwalk).
  assert (Hregion : test page_addr k d (S fuel) = Ok (with_raii.traverse t, g)).
  { unfold test. rewrite Hbuild, bind_Ok_l, Hwalk, bind_Ok_l, Hg. reflexivity. }
  assert (Howned : with_raii.test k d (S fuel) = Ok (with_raii.traverse t, g)).
  { apply (raii_test_more_fuel k ltac:(lia)).
    unfold with_raii.test. rewrite Hraii, bind_Ok_l. reflexivity. }
  unfold main. rewrite Hregion, bind_Ok_l, Howned, bind_Ok_l.
  rewrite !Z.eqb_refl, Hstat. reflexivity.
Qed.

Lemma main_reports_the_node_count_witness :
  main example_pages 3 2 3 = Ok (wrap_int (sum_of_powers 3 (levels 2)), 2, 3).
Proof.
  apply (main_reports_the_node_count example_pages 3 2 2).
  - lia.
  - lia.
  - unfold levels. simpl. lia.
  - apply example_pages_ok. simpl. lia.
Defined.

(** X16. With more than 512 children per node, or a negative number, [main]
  gets no further than its first test: the region run stops the process in
  the constructor of the root with the allocator's diagnostic, before a node
  is created and before the RAII run starts. *)
Theorem main_stops_for_unsupported_widths (page_addr : nat -> Z) (k d : Z) (fuel : nat) :
  - 2 ^ 28 <= k < 0 \/ 512 < k < 2 ^ 28 ->
  main page_addr k d (S fuel) = Terminated too_large_diagnostic.
Proof.
  intros Hk. unfold main, test, build_tree, new_Node.
  rewrite (new_Vector_too_large page_addr fuel _ k Hk). reflexivity.
Qed.

Lemma main_stops_for_unsupported_widths_witness :
  main example_pages 513 15 1 = Terminated too_large_diagnostic.
Proof. apply (main_stops_for_unsupported_widths example_pages 513 15 0). lia. Defined.
End WholeRuns.

(** ** How full the pages get *)

Section PageFilling.
Import without_raii.

Lemma allocate_block_activates (page_addr : nat -> Z) fuel a size alignment p a' :
  allocate_block page_addr (S fuel) a size alignment = Ok (p, a') ->
  (length (pages (activated page_addr a)) <= length (pages a'))%nat.
Proof.
  intros Hrun. rewrite allocate_block_unfold in Hrun.
  destruct (size <=? MAX_SMALL_BLOCK_SIZE); [|discriminate].
  destruct (std_align _ _ _ _) as [[ptr space]|].
  - inversion Hrun; subst. simpl. lia.
  - apply allocate_block_pages_length in Hrun. simpl in Hrun. exact Hrun.
Qed.

Lemma align_up_aligned p a : 0 < a -> p mod a = 0 -> align_up p a = p.
Proof.
  intros Ha Hp. unfold align_up. rewrite Z.mod_opp_l_z by (try assumption; lia). lia.
Qed.

Lemma sum_mod_8 x y : x mod 8 = 0 -> y mod 8 = 0 -> (x + y) mod 8 = 0.
Proof. intros Hx Hy. rewrite Z.add_mod, Hx, Hy by lia. reflexivity. Qed.

(** The books of a region that serves 8-aligned blocks whose sizes are
    multiples of 8 from 8-aligned pages: no byte goes to padding, and a page
    is given up only when less than the request is left of it. *)
Lemma served_fills_pages (page_addr : nat -> Z) a bs :
  served page_addr a bs ->
  pages_ok page_addr (length (pages a)) ->
  (forall i, (i < length (pages a))%nat -> page_addr i mod 8 = 0) ->
  Forall (fun b => block_alignment b = 8 /\ block_size b mod 8 = 0) bs ->
  (pages a = [] /\ active_page_first_free_byte a = 0 /\ bs = []) \/
  (exists n, length (pages a) = S n /\
             active_page_first_free_byte a <> 0 /\
             active_page_first_free_byte a mod 8 = 0 /\
             (PAGE_SIZE - MAX_SMALL_BLOCK_SIZE) * Z.of_nat n
             + (active_page_first_free_byte a - page_addr n)
             <= sum_Z (map block_size bs)).
Proof.
  induction 1 as [| a bs fuel size alignment p a' Hserved IH Hsize Hal Hrun];
    intros Hok Hpg Hbs.
  { left. repeat split. }
  right.
  inversion Hbs as [|b bs' [Hal8 Hsz8] Hbs']; subst b bs'.
  cbn [block_alignment block_size] in Hal8, Hsz8. subst alignment.
  cbn [map sum_Z fold_right block_size]. fold (sum_Z (map block_size bs)).
  pose proof (allocate_block_pages_length _ _ _ _ _ _ _ Hrun) as Hlen.
  assert (Hok0 : pages_ok page_addr (length (pages a))) by (eapply pages_ok_le; eassumption).
  destruct (served_invariant page_addr a bs Hserved Hok0) as ([_ Hcur] & _ & _).
  specialize (IH Hok0 (fun i Hi => Hpg i ltac:(lia)) Hbs').
  destruct fuel as [|fuel]; [discriminate|].
  pose proof (allocate_block_activates _ _ _ _ _ _ _ Hrun) as Hact.
  unfold PAGE_SIZE, MAX_SMALL_BLOCK_SIZE in *.
  destruct IH as [(Hnil & Hnull & ->) | (n & Hn & Hnz & Hmod & Hsum)].
  - (* the first block of the region *)
    unfold activated in Hact. rewrite Hnull in Hact. simpl in Hact.
    rewrite length_app in Hact. simpl in Hact.
    rewrite allocate_block_null_cursor in Hrun;
      [| exact Hnull | apply Hok; lia | unfold MAX_SMALL_BLOCK_SIZE; lia | apply is_alignment_8
       | unfold PAGE_SIZE, MAX_SMALL_BLOCK_SIZE; lia].
    inversion Hrun; subst p a'; clear Hrun.
    cbn [pages active_page_first_free_byte] in *. rewrite Hnil in *. cbn [length app] in *.
    assert (Hp0 : page_addr 0%nat mod 8 = 0) by (apply Hpg; lia).
    destruct (Hok 0%nat ltac:(lia)) as (Hpos & _).
    rewrite (align_up_aligned _ 8) by (try assumption; lia).
    exists 0%nat. split; [reflexivity|]. split; [lia|].
    split; [apply sum_mod_8; assumption|]. cbn. lia.
  - destruct Hcur as [? | (n' & Hn' & Hlo & Hleft & Hend)]; [contradiction|].
    assert (n' = n) by lia. subst n'.
    destruct (Hok0 n ltac:(lia)) as (Hpos & Hin & _).
    unfold PAGE_SIZE in *.
    pose proof (align_up_aligned (active_page_first_free_byte a) 8 ltac:(lia) Hmod) as Hsame.
    destruct (Z_le_gt_dec (active_page_first_free_byte a + size)
                          (active_page_first_free_byte a + active_page_bytes_left a))
      as [Hfits | Hfull].
    + (* the block fits behind the cursor *)
      rewrite allocate_block_fits in Hrun;
        [| assumption | lia | lia | lia | unfold MAX_SMALL_BLOCK_SIZE; lia
         | apply is_alignment_8 | rewrite Hsame; lia].
      inversion Hrun; subst p a'; clear Hrun.
      cbn [pages active_page_first_free_byte] in *. rewrite Hsame.
      exists n. split; [exact Hn|]. split; [lia|].
      split; [apply sum_mod_8; assumption | lia].
    + (* the page is given up *)
      rewrite allocate_block_no_room in Hrun;
        [| assumption | lia | lia | lia | unfold MAX_SMALL_BLOCK_SIZE; lia
         | apply is_alignment_8 | rewrite Hsame; lia].
      destruct fuel as [|fuel]; [discriminate|].
      pose proof (allocate_block_activates _ _ _ _ _ _ _ Hrun) as Hact'.
      unfold activated in Hact'. simpl in Hact'. rewrite length_app in Hact'. simpl in Hact'.
      rewrite allocate_block_null_cursor in Hrun;
        [| reflexivity | apply Hok; simpl; lia | unfold MAX_SMALL_BLOCK_SIZE; lia
         | apply is_alignment_8 | unfold PAGE_SIZE, MAX_SMALL_BLOCK_SIZE; lia].
      inversion Hrun; subst p a'; clear Hrun.
      cbn [pages active_page_first_free_byte retired] in *.
      rewrite length_app in *. cbn [length] in *. rewrite Hn in *.
      assert (Hp : page_addr (S n) mod 8 = 0) by (apply Hpg; lia).
      destruct (Hok (S n) ltac:(lia)) as (Hpos' & _).
      rewrite (align_up_aligned _ 8) by (try assumption; lia).
      exists (S n). split; [lia|]. split; [lia|].
      split; [apply sum_mod_8; assumption|]. lia.
Qed.

(** X17. The region wastes less than [MAX_SMALL_BLOCK_SIZE] bytes of a page.
  When the blocks asked for are 8-aligned and their sizes multiples of 8 (as
  for every [Node] and every block of [Node*]) and the pages start at
  multiples of 8, no byte goes to padding and a page is given up only when
  less than the request is left of it: the bytes handed out are at least
  [PAGE_SIZE - MAX_SMALL_BLOCK_SIZE = 61440] for every page but the last. So
  a region that has handed out [B] bytes has created at most [1 + B / 61440]
  pages. *)
Theorem pages_are_filled (page_addr : nat -> Z) (a : Allocator) (bs : list Block) :
  served page_addr a bs ->
  pages_ok page_addr (length (pages a)) ->
  (forall i, (i < length (pages a))%nat -> page_addr i mod 8 = 0) ->
  Forall (fun b => block_alignment b = 8 /\ block_size b mod 8 = 0) bs ->
  (PAGE_SIZE - MAX_SMALL_BLOCK_SIZE) * (Z.of_nat (length (pages a)) - 1)
  <= sum_Z (map block_size bs).
Proof.
  intros Hserved Hok Hpg Hbs.
  destruct (served_fills_pages page_addr a bs Hserved Hok Hpg Hbs)
    as [(Hnil & _ & ->) | (n & Hn & Hnz & _ & Hsum)].
  - rewrite Hnil. unfold PAGE_SIZE, MAX_SMALL_BLOCK_SIZE. cbn. lia.
  - destruct (served_invariant page_addr a bs Hserved Hok) as ([_ Hcur] & _ & _).
    destruct Hcur as [? | (n' & Hn' & Hlo & _)]; [contradiction|].
    assert (n' = n) by lia. subst n'. rewrite Hn.
    unfold PAGE_SIZE, MAX_SMALL_BLOCK_SIZE in *. lia.
Qed.

Lemma example_pages_aligned i : example_pages i mod 8 = 0.
Proof.
  unfold example_pages.
  replace (66560 + 65536 * Z.of_nat i) with ((8320 + 8192 * Z.of_nat i) * 8) by lia.
  apply Z_mod_mult.
Qed.

Lemma pages_are_filled_witness :
  (PAGE_SIZE - MAX_SMALL_BLOCK_SIZE)
  * (Z.of_nat (length (pages {| pages := [66560]; active_page_first_free_byte := 66608;
                                active_page_bytes_left := 65488 |})) - 1)
  <= sum_Z (map block_size
              [ {| block_addr := 66584; block_size := 24; block_alignment := 8 |};
                {| block_addr := 66560; block_size := 24; block_alignment := 8 |} ]).
Proof.
  apply (pages_are_filled example_pages).
  - apply (served_call example_pages
             {| pages := [66560]; active_page_first_free_byte := 66584;
                active_page_bytes_left := 65512 |} _ 2%nat 24 8).
    + apply (served_call example_pages new_Allocator [] 2%nat 24 8).
      * apply served_fresh.
      * unfold MAX_SMALL_BLOCK_SIZE. lia.
      * exists 3. split; [lia | reflexivity].
      * reflexivity.
    + unfold MAX_SMALL_BLOCK_SIZE. lia.
    + exists 3. split; [lia | reflexivity].
    + reflexivity.
  - apply example_pages_ok. simpl. lia.
  - intros i _. apply example_pages_aligned.
  - repeat constructor.
Defined.
End PageFilling.
